(** * Masternode manager of go-etherzero: a shallow embedding of
      [eth/masternode_manager.go] and the properties of its ranking,
      payment selection, lock-vote gate, active-node evaluation and
      membership loop. *)

From Stdlib Require Import ZArith Lia.
From stdpp Require Import base option list strings gmap fin_maps sorting.

Local Open Scope Z_scope.

(** ** Go runtime: panics, the big.Int heap, map iteration *)

(** A run-time panic of the Go program. *)
Inductive fault : Type :=
  | NilMapAssign   (* assignment to entry in nil map *)
  | NilDereference (* invalid memory address or nil pointer dereference *).

Inductive outcome (A : Type) : Type :=
  | Returns (a : A)
  | Panics (f : fault).
Arguments Returns {A} a.
Arguments Panics {A} f.

(** A [*big.Int] is an address in a heap of integers; [new(big.Int)]
    extends the heap, so the address it returns is not in use before. *)
Abbreviation loc := nat.
Abbreviation Heap := (list Z).

(** Computations that read and extend the heap and may panic. *)
Definition M (A : Type) : Type := Heap -> outcome (A * Heap).

Definition ret {A} (a : A) : M A := fun h => Returns (a, h).
Definition panic {A} (f : fault) : M A := fun _ => Panics f.
Definition bind {A B} (c : M A) (k : A -> M B) : M B :=
  fun h => match c h with
           | Returns (a, h') => k a h'
           | Panics f => Panics f
           end.

Declare Scope go_scope.
Delimit Scope go_scope with go.
Notation "'let*' x ':=' c 'in' k" := (bind c (fun x => k))
  (at level 10, x name, c at level 100, k at level 200) : go_scope.
Notation "'let*' ' p ':=' c 'in' k" := (bind c (fun x => let 'p := x in k))
  (at level 10, p pattern, c at level 100, k at level 200) : go_scope.

(** Sequencing of code that may panic but does not touch the heap. *)
Definition and_then {A B} (c : outcome A) (k : A -> outcome B) : outcome B :=
  match c with
  | Returns a => k a
  | Panics f => Panics f
  end.
Notation "'let+' x ':=' c 'in' k" := (and_then c (fun x => k))
  (at level 10, x name, c at level 100, k at level 200) : go_scope.
Notation "'let+' ' p ':=' c 'in' k" := (and_then c (fun x => let 'p := x in k))
  (at level 10, p pattern, c at level 100, k at level 200) : go_scope.
Local Open Scope go_scope.

Definition lift {A} (c : outcome A) : M A :=
  fun h => match c with
           | Returns a => Returns (a, h)
           | Panics f => Panics f
           end.

(** [new(big.Int)] set to [v]. *)
Definition new_Int (v : Z) : M loc := fun h => Returns (length h, h ++ [v]).

(** The integer stored at an address. *)
Definition Int_value (p : loc) : M Z :=
  fun h => match h !! p with
           | Some v => Returns (v, h)
           | None => Panics NilDereference
           end.

(** [x.Cmp(y)] of math/big: -1, 0 or +1; it reads through [y], so a nil
    [y] faults. *)
Definition Int_Cmp (x : loc) (y : option loc) : M Z :=
  match y with
  | None => panic NilDereference
  | Some y =>
      let* a := Int_value x in
      let* b := Int_value y in
      ret (match a ?= b with Lt => -1 | Eq => 0 | Gt => 1 end)
  end.

(** Go leaves the order in which [range] visits a map unspecified, and it
    may change from one loop to the next.  A [range] therefore takes a
    seed: the visit starts from the map's entries and repeatedly draws the
    entry at position [seed mod remaining]. *)
Definition draw {A} (n : nat) (l : list A) : option (A * list A) :=
  let i := (n mod length l)%nat in
  match l !! i with
  | Some x => Some (x, take i l ++ drop (S i) l)
  | None => None
  end.

Fixpoint shuffle_upto {A} (k : nat) (seed : list nat) (l : list A) : list A :=
  match k with
  | O => []
  | S k =>
      match draw (hd O seed) l with
      | None => []
      | Some (x, rest) => x :: shuffle_upto k (tl seed) rest
      end
  end.

Definition shuffle {A} (seed : list nat) (l : list A) : list A :=
  shuffle_upto (length l) seed l.

Definition range_map `{Countable K} {V} (seed : list nat) (m : gmap K V)
  : list (K * V) :=
  shuffle seed (map_to_list m).

(** [m[k] = v]: a nil map cannot be written. *)
Definition map_assign `{Countable K} {V}
    (m : option (gmap K V)) (k : K) (v : V) : M (option (gmap K V)) :=
  match m with
  | None => panic NilMapAssign
  | Some m => ret (Some (<[k := v]> m))
  end.

(** [m[k]]: reading a nil map or a missing key gives the zero value. *)
Definition map_index `{Countable K} {V}
    (m : option (gmap K V)) (k : K) : option V :=
  match m with
  | None => None
  | Some m => m !! k
  end.

(** ** Data of the masternode and chain packages used by the manager *)

Abbreviation Hash := (list Z).

(** The endpoint [discover.Node]: an IP address and a TCP port (uint16). *)
Record discover_Node : Type := {
  IP : list Z;
  TCP : Z
}.

(** Modelled from the spec: the record [masternode.Masternode], declared
    outside this file: an identity, a network endpoint, the join height
    and a protocol version.  The manager reads [ID], [Node] and
    [Height]. *)
Record Masternode : Type := {
  ID : string;
  Node : discover_Node;
  Height : Z;
  ProtocolVersion : Z
}.

(** [net.TCPAddr]. *)
Record TCPAddr : Type := {
  Addr_IP : list Z;
  Addr_Port : Z
}.

(** Modelled from the spec: [masternode.ActiveMasternode], declared
    outside this file: the local identity, the locally bound endpoint and
    the state of the active-node state machine. *)
Record ActiveMasternode : Type := {
  active_ID : string;
  active_Addr : TCPAddr;
  active_state : Z
}.

(** What the manager reads of [types.Block]. *)
Record Block : Type := {
  block_Hash : Hash;
  block_Number : Z
}.

(** What the manager reads and changes of [p2p.Server]. *)
Record Server : Type := {
  Self_ID32 : string;            (* the first 32 bytes of srvr.Self().ID *)
  server_peers : list discover_Node (* nodes handed to AddPeer *)
}.

(** The fields of [MasternodeManager] the modelled methods use. *)
Record MasternodeManager : Type := {
  masternodes : option (gmap string Masternode); (* nil or id -> masternode *)
  active : ActiveMasternode;
  CurrentBlock : option Block;   (* mm.blockchain.CurrentBlock() *)
  srvr : Server
}.

Definition SIGNATURES_TOTAL : Z := 10.

(** The registry [masternode.MasternodeSet], declared outside this file.
    A manager holds a pointer to it, which is nil when the set could not
    be created; every operation reads the set through its receiver, so on
    a nil set it faults. *)
Module MasternodeSet.

(** Modelled from the spec: Size, the number of records of the
    registry. *)
Definition Len (ns : option (gmap string Masternode)) : outcome Z :=
  match ns with
  | None => Panics NilDereference
  | Some nodes => Returns (Z.of_nat (size nodes))
  end.

(** Modelled from the spec: All, the records of the registry, in no
    particular order. *)
Definition Nodes (ns : option (gmap string Masternode))
  : outcome (gmap string Masternode) :=
  match ns with
  | None => Panics NilDereference
  | Some nodes => Returns nodes
  end.

(** Modelled from the spec: Lookup, the record of an identity, or nil. *)
Definition Node (ns : option (gmap string Masternode)) (id : string)
  : outcome (option Masternode) :=
  match ns with
  | None => Panics NilDereference
  | Some nodes => Returns (nodes !! id)
  end.

(** Modelled from the spec: Join inserts or replaces the record of the
    identity.  The record is the one the contract holds for the id
    ([contract_GetInfo]; [None]: the call fails and the error is handed
    back). *)
Definition NodeJoin (contract_GetInfo : string -> option Masternode)
    (ns : option (gmap string Masternode)) (id : string)
  : outcome (option (gmap string Masternode) * option Masternode) :=
  match ns with
  | None => Panics NilDereference
  | Some nodes =>
      match contract_GetInfo id with
      | None => Returns (ns, None)
      | Some node => Returns (Some (<[id := node]> nodes), Some node)
      end
  end.

(** Modelled from the spec: Quit removes the record of the identity and
    is a no-op when it is absent. *)
Definition NodeQuit (ns : option (gmap string Masternode)) (id : string)
  : outcome (option (gmap string Masternode)) :=
  match ns with
  | None => Panics NilDereference
  | Some nodes => Returns (Some (delete id nodes))
  end.

End MasternodeSet.

(** [b.Number()] of core/types reads the block's header. *)
Definition Number (b : option Block) : M Z :=
  match b with
  | None => panic NilDereference
  | Some b => ret (block_Number b)
  end.

(** ** Scores and ranks *)

Section Ranking.

(** The numeric value of [m.CalculateScore(blockHash)]; the hash it is
    computed with is declared in the masternode package. *)
Variable score : Masternode -> Hash -> Z.

(** Modelled from the spec: [CalculateScore] computes the score of
    (identity, block hash) on demand and hands it back as a big integer
    of its own, never stored; a nil receiver faults. *)
Definition CalculateScore (n : option Masternode) (blockHash : Hash) : M loc :=
  match n with
  | None => panic NilDereference
  | Some m => new_Int (score m blockHash)
  end.

(** The loop of [GetMasternodeScores] over the nodes in visiting order. *)
Fixpoint GetMasternodeScores_range (blockHash : Hash)
    (nodes : list (string * Masternode))
    (masternodeScores : gmap loc Masternode) : M (gmap loc Masternode) :=
  match nodes with
  | [] => ret masternodeScores
  | (_, m) :: rest =>
      let* k := CalculateScore (Some m) blockHash in
      GetMasternodeScores_range blockHash rest (<[k := m]> masternodeScores)
  end.

Definition GetMasternodeScores (mm : MasternodeManager) (seed : list nat)
    (blockHash : Hash) (minProtocol : Z) : M (gmap loc Masternode) :=
  let masternodeScores : gmap loc Masternode := ∅ in
  let* nodes := lift (MasternodeSet.Nodes (masternodes mm)) in
  GetMasternodeScores_range blockHash (range_map seed nodes) masternodeScores.

(** The loop of [GetMasternodeRank]: count the visited entries and stop
    at the first one carrying [id]. *)
Fixpoint GetMasternodeRank_range (id : string)
    (entries : list (loc * Masternode)) (tRank rank : Z) : Z :=
  match entries with
  | [] => rank
  | (_, masternode) :: rest =>
      let tRank := tRank + 1 in
      if String.eqb id (ID masternode) then tRank
      else GetMasternodeRank_range id rest tRank rank
  end.

(** [seeds] holds the seed of the range over the registry and the seed
    of the range over the score map.  [mm.syncer()], declared outside
    this file, is taken to return without touching the data read here. *)
Definition GetMasternodeRank (mm : MasternodeManager)
    (seeds : list nat * list nat) (id : string) : M (Z * bool) :=
  let rank := 0 in
  match CurrentBlock mm with
  | None =>
      let* _ := Number None in   (* argument of the log call *)
      ret (rank, false)
  | Some block =>
      let* masternodeScores :=
        GetMasternodeScores mm (fst seeds) (block_Hash block) 1 in
      let tRank := 0 in
      let rank :=
        GetMasternodeRank_range id (range_map (snd seeds) masternodeScores)
          tRank rank in
      ret (rank, true)
  end.

(** The votes are opaque here; [is_ProcessTxLockVotes] is the handler
    of the InstantSend component the call ends in. *)
Context {TxLockVote : Type}.
Variable is_ProcessTxLockVotes : list TxLockVote -> bool.

Definition ProcessTxLockVotes (mm : MasternodeManager)
    (seeds : list nat * list nat) (votes : list TxLockVote) : M bool :=
  let* '(rank, ok) := GetMasternodeRank mm seeds (active_ID (active mm)) in
  if negb ok then ret false
  else if rank >? SIGNATURES_TOTAL then ret false
  else ret (is_ProcessTxLockVotes votes).

End Ranking.

(** ** Payment winner *)

(** [x.Int64()] of math/big followed by [int(...)]: the low 64 bits, read
    as a signed integer. *)
Definition Int64 (x : Z) : Z := (x + 2 ^ 63) mod 2 ^ 64 - 2 ^ 63.

(** [sort.Ints]: increasing order. *)
Definition sort_Ints (a : list Z) : list Z := merge_sort Z.le a.

Section Payment.

Variable score : Masternode -> Hash -> Z.

(** First loop: record every node's height and file the node under it. *)
Fixpoint GetNextMasternodeInQueueForPayment_nodes
    (nodes : list (string * Masternode)) (paids : list Z)
    (sortMap : option (gmap Z Masternode))
  : M (list Z * option (gmap Z Masternode)) :=
  match nodes with
  | [] => ret (paids, sortMap)
  | (_, node) :: rest =>
      let i := Int64 (Height node) in
      let paids := paids ++ [i] in
      let* sortMap := map_assign sortMap i node in
      GetNextMasternodeInQueueForPayment_nodes rest paids sortMap
  end.

(** Second loop: walk the sorted heights, keep the best score, stop
    once [countTenth] reaches [tenthNetWork]. *)
Fixpoint GetNextMasternodeInQueueForPayment_paids (block : Hash)
    (sortMap : option (gmap Z Masternode)) (tenthNetWork : Z)
    (paids : list Z) (countTenth : Z) (highest : option loc)
    (winner : option Masternode) : M (option Masternode) :=
  match paids with
  | [] => ret winner
  | i :: rest =>
      let* _ := CalculateScore score (map_index sortMap i) block in (* Printf *)
      let* score := CalculateScore score (map_index sortMap i) block in
      let* c := Int_Cmp score highest in
      let '(highest, winner) :=
        if c >? 0 then (Some score, map_index sortMap i)
        else (highest, winner) in
      let countTenth := countTenth + 1 in
      if countTenth >=? tenthNetWork then ret winner
      else GetNextMasternodeInQueueForPayment_paids block sortMap
             tenthNetWork rest countTenth highest winner
  end.

(** The result is the pair (winner, error); [None] is nil. *)
Definition GetNextMasternodeInQueueForPayment (mm : MasternodeManager)
    (seed : list nat) (block : Hash)
  : M (option Masternode * option string) :=
  let paids : list Z := [] in
  let* len := lift (MasternodeSet.Len (masternodes mm)) in
  let tenthNetWork := len ÷ 10 in
  let countTenth := 0 in
  let highest : option loc := None in
  let winner : option Masternode := None in
  let sortMap : option (gmap Z Masternode) := None in
  match masternodes mm with
  | None => ret (None, Some "no masternode detected"%string)
  | Some _ =>
      let* nodes := lift (MasternodeSet.Nodes (masternodes mm)) in
      let* '(paids, sortMap) :=
        GetNextMasternodeInQueueForPayment_nodes (range_map seed nodes)
          paids sortMap in
      let paids := sort_Ints paids in
      let* winner :=
        GetNextMasternodeInQueueForPayment_paids block sortMap tenthNetWork
          paids countTenth highest winner in
      ret (winner, None)
  end.

End Payment.

(** ** Active masternode *)

(** Constants and byte comparison of package net. *)
Definition IPv4len : nat := 4.
Definition IPv6len : nat := 16.
Definition v4InV6Prefix : list Z := [0; 0; 0; 0; 0; 0; 0; 0; 0; 0; 255; 255].

Definition bytesEqual (a b : list Z) : bool := bool_decide (a = b).

(** [ip.Equal(x)] of package net: an IPv4 address and its IPv6 form are
    the same address. *)
Definition IP_Equal (ip x : list Z) : bool :=
  if (length ip =? length x)%nat then bytesEqual ip x
  else if ((length ip =? IPv4len)%nat && (length x =? IPv6len)%nat)%bool then
    bytesEqual (take 12 x) v4InV6Prefix && bytesEqual ip (drop 12 x)
  else if ((length ip =? IPv6len)%nat && (length x =? IPv4len)%nat)%bool then
    bytesEqual (take 12 ip) v4InV6Prefix && bytesEqual (drop 12 ip) x
  else false.

(** [SetState] of the active masternode stores the state. *)
Definition SetState (a : ActiveMasternode) (state : Z) : ActiveMasternode :=
  {| active_ID := active_ID a; active_Addr := active_Addr a;
     active_state := state |}.

(** Field updates of the manager. *)
Definition set_active (mn : MasternodeManager) (a : ActiveMasternode)
  : MasternodeManager :=
  {| masternodes := masternodes mn; active := a;
     CurrentBlock := CurrentBlock mn; srvr := srvr mn |}.

Definition set_masternodes (mn : MasternodeManager)
    (ns : option (gmap string Masternode)) : MasternodeManager :=
  {| masternodes := ns; active := active mn;
     CurrentBlock := CurrentBlock mn; srvr := srvr mn |}.

(** [mn.srvr.AddPeer(node)]. *)
Definition AddPeer (mn : MasternodeManager) (node : discover_Node)
  : MasternodeManager :=
  {| masternodes := masternodes mn; active := active mn;
     CurrentBlock := CurrentBlock mn;
     srvr := {| Self_ID32 := Self_ID32 (srvr mn);
                server_peers := node :: server_peers (srvr mn) |} |}.

Section Active.

(** The two state codes of the masternode package. *)
Variables ACTIVE_MASTERNODE_NOT_CAPABLE ACTIVE_MASTERNODE_STARTED : Z.

Definition updateActiveMasternode (mn : MasternodeManager)
  : outcome MasternodeManager :=
  let+ n := MasternodeSet.Node (masternodes mn) (active_ID (active mn)) in
  let state :=
    match n with
    | None => ACTIVE_MASTERNODE_NOT_CAPABLE
    | Some n =>
        if negb (TCP (Node n) =? Addr_Port (active_Addr (active mn))) then
          ACTIVE_MASTERNODE_NOT_CAPABLE
        else if negb (IP_Equal (IP (Node n))
                        (Addr_IP (active_Addr (active mn)))) then
          ACTIVE_MASTERNODE_NOT_CAPABLE
        else ACTIVE_MASTERNODE_STARTED
    end in
  Returns (set_active mn (SetState (active mn) state)).

(** ** Membership loop *)

(** What one round of the [select] receives.  An error channel delivers
    an error or, once closed, nil. *)
Inductive Event : Type :=
  | JoinCh (id : string)       (* join := <-joinCh *)
  | QuitCh (id : string)       (* quit := <-quitCh *)
  | JoinSubErr (err : option string)  (* err := <-joinSub.Err() *)
  | QuitSubErr (err : option string)  (* err := <-quitSub.Err() *).

(** The manager together with the two subscriptions ([true]: still
    subscribed). *)
Record LoopState : Type := {
  loop_mn : MasternodeManager;
  joinSub : bool;
  quitSub : bool
}.

(** Where a run of the loop function stands after the events it was
    given: back in the [select], or returned to its caller. *)
Inductive LoopStatus : Type :=
  | InSelect (st : LoopState)
  | Returned (mn : MasternodeManager).

(** The node data the contract holds for an id ([None]: the call
    fails). *)
Variable contract_GetInfo : string -> option Masternode.

(** [err.Error()]: the message of an error; a nil error faults. *)
Definition Error (err : option string) : outcome string :=
  match err with
  | None => Panics NilDereference
  | Some msg => Returns msg
  end.

(** One round of the [select] of [masternodeLoop]. *)
Definition masternodeLoop_select (st : LoopState) (ev : Event)
  : outcome LoopState :=
  let mn := loop_mn st in
  match ev with
  | JoinCh id =>
      let+ '(ns, node) :=
        MasternodeSet.NodeJoin contract_GetInfo (masternodes mn) id in
      let mn := set_masternodes mn ns in
      match node with
      | Some node =>    (* err == nil *)
          let+ mn :=
            if String.eqb id (Self_ID32 (srvr mn)) then
              updateActiveMasternode mn
            else Returns (AddPeer mn (Node node)) in
          Returns {| loop_mn := mn; joinSub := joinSub st;
                     quitSub := quitSub st |}
      | None =>
          Returns {| loop_mn := mn; joinSub := joinSub st;
                     quitSub := quitSub st |}
      end
  | QuitCh id =>
      let+ ns := MasternodeSet.NodeQuit (masternodes mn) id in
      let mn := set_masternodes mn ns in
      let+ mn :=
        if String.eqb id (Self_ID32 (srvr mn)) then
          updateActiveMasternode mn
        else Returns mn in
      Returns {| loop_mn := mn; joinSub := joinSub st;
                 quitSub := quitSub st |}
  | JoinSubErr err =>
      (* joinSub.Unsubscribe() *)
      let st := {| loop_mn := mn; joinSub := false; quitSub := quitSub st |} in
      let+ _ := Error err in   (* printed *)
      Returns st
  | QuitSubErr err =>
      (* quitSub.Unsubscribe() *)
      let st := {| loop_mn := mn; joinSub := joinSub st; quitSub := false |} in
      let+ _ := Error err in   (* printed *)
      Returns st
  end.

(** [for { select { ... } }]: no case leaves the loop. *)
Fixpoint masternodeLoop_for (events : list Event) (st : LoopState)
  : outcome LoopStatus :=
  match events with
  | [] => Returns (InSelect st)
  | ev :: rest =>
      let+ st := masternodeLoop_select st ev in
      masternodeLoop_for rest st
  end.

(** [err1], [err2]: the errors of [WatchJoin] and [WatchQuit].  What the
    function prints before and inside the loop is left out. *)
Definition masternodeLoop (mn : MasternodeManager)
    (err1 err2 : option string) (events : list Event)
  : outcome LoopStatus :=
  let+ mn := updateActiveMasternode mn in
  match err1 with
  | Some _ => Returns (Returned mn)
  | None =>
      match err2 with
      | Some _ => Returns (Returned mn)
      | None =>
          masternodeLoop_for events
            {| loop_mn := mn; joinSub := true; quitSub := true |}
      end
  end.

End Active.

(** ** Auxiliary definitions for the statements *)

(** Every key of the map under construction is an address already in
    use, so the address of the next score is not among them. *)
Definition keys_allocated (scores : gmap loc Masternode) (h : Heap) : Prop :=
  ∀ k, is_Some (scores !! k) → (k < length h)%nat.

(** The manager with its current block replaced. *)
Definition set_CurrentBlock (mn : MasternodeManager) (b : option Block)
  : MasternodeManager :=
  {| masternodes := masternodes mn; active := active mn;
     CurrentBlock := b; srvr := srvr mn |}.

(** The value an event delivers from an error channel, if it is one. *)
Definition received_error (ev : Event) : option (option string) :=
  match ev with
  | JoinSubErr err | QuitSubErr err => Some err
  | _ => None
  end.

(** ** Sample inputs *)

(** A stand-in for the score hash: the score of a node is its height. *)
Definition score_by_height (m : Masternode) (blockHash : Hash) : Z := Height m.

(** A stand-in that gives every node the same score. *)
Definition score_constant (m : Masternode) (blockHash : Hash) : Z := 42.

Definition mnA : Masternode :=
  {| ID := "A"; Node := {| IP := [10; 0; 0; 1]; TCP := 30303 |};
     Height := 5; ProtocolVersion := 0 |}.
Definition mnB : Masternode :=
  {| ID := "B"; Node := {| IP := [10; 0; 0; 2]; TCP := 30303 |};
     Height := 7; ProtocolVersion := 1 |}.
Definition mnC : Masternode :=
  {| ID := "C"; Node := {| IP := [10; 0; 0; 3]; TCP := 30303 |};
     Height := 9; ProtocolVersion := 1 |}.

Definition reg_B : gmap string Masternode := {[ "B"%string := mnB ]}.
Definition reg_AB : gmap string Masternode := <[ "A"%string := mnA ]> reg_B.
Definition reg_ABC : gmap string Masternode := <[ "C"%string := mnC ]> reg_AB.

Definition block_9 : Block := {| block_Hash := [9]; block_Number := 9 |}.

(** The manager of the node "A", listening on 10.0.0.1:30303, over the
    registry [reg]. *)
Definition manager_A (reg : gmap string Masternode) : MasternodeManager :=
  {| masternodes := Some reg;
     active := {| active_ID := "A";
                  active_Addr := {| Addr_IP := [10; 0; 0; 1];
                                    Addr_Port := 30303 |};
                  active_state := 0 |};
     CurrentBlock := Some block_9;
     srvr := {| Self_ID32 := "A"; server_peers := [] |} |}.

(** ** The registration data printed by [masternodeLoop] *)

(** Conversions to [byte] and [uint16] keep the low bits. *)
Definition byte (x : Z) : Z := x mod 256.
Definition uint16 (x : Z) : Z := x mod 65536.

(** [a[lo:hi]] of an array with constant bounds, and the array after the
    window [a[lo:hi]] has been overwritten with [w] (a slice shares the
    array it is cut from). *)
Definition slice (lo hi : nat) (a : list Z) : list Z :=
  take (hi - lo) (drop lo a).
Definition set_slice (lo hi : nat) (a w : list Z) : list Z :=
  take lo a ++ w ++ drop hi a.

(** [copy(dst, src)]: the first min(len(dst), len(src)) bytes of [src]
    replace those of [dst]; the result is [dst] afterwards. *)
Definition copy (dst src : list Z) : list Z :=
  take (length dst) src ++ drop (length src) dst.

(** [binary.BigEndian.PutUint16(b, v)]: high byte first; a destination
    shorter than two bytes is a run-time fault ([None]). *)
Definition PutUint16 (b : list Z) (v : Z) : option (list Z) :=
  if (length b <? 2)%nat then None
  else Some (<[1%nat := byte v]> (<[0%nat := byte (v ≫ 8)]> b)).

(** The 32 bytes [misc] that [masternodeLoop] builds from the configured
    masternode address. *)
Definition masternodeLoop_misc (addr : TCPAddr) : option (list Z) :=
  let misc := replicate 32 0 in
  let misc := <[0%nat := 1]> misc in
  let misc := set_slice 1 17 misc (copy (slice 1 17 misc) (Addr_IP addr)) in
  match PutUint16 (slice 17 19 misc) (uint16 (Addr_Port addr)) with
  | None => None
  | Some w => Some (set_slice 17 19 misc w)
  end.

Section Announce.

(** [common.Bytes2Hex], declared outside this file. *)
Variable Bytes2Hex : list Z -> string.
Variable ACTIVE_MASTERNODE_STARTED : Z.

(** The string [d]: the selector, then the node id and [misc] in hex. *)
Definition masternodeLoop_data (selfID : list Z) (addr : TCPAddr)
  : option string :=
  match masternodeLoop_misc addr with
  | None => None
  | Some misc =>
      let buf := selfID ++ misc in
      Some ("0x4da274fd" +:+ Bytes2Hex buf)
  end.

(** The lines [masternodeLoop] prints after its first evaluation of the
    active state, from the state, the node id and the configured
    masternode address. *)
Definition masternodeLoop_announce (state : Z) (selfID : list Z)
    (addr : TCPAddr) : option (list string) :=
  if state =? ACTIVE_MASTERNODE_STARTED then
    Some ["masternodeCheck true"%string]
  else if negb (IP_Equal (Addr_IP addr) []) then
    match masternodeLoop_data selfID addr with
    | None => None
    | Some d => Some ["Masternode transaction data: " +:+ d]
    end
  else Some [].

End Announce.

(** ** Reference functions for the membership loop *)

(** The registry after a sequence of events: joins the contract knows
    insert or replace, quits delete, everything else leaves it alone. *)
Definition membership_after (contract_GetInfo : string -> option Masternode)
    (reg : gmap string Masternode) (events : list Event)
  : gmap string Masternode :=
  foldl (λ reg ev,
           match ev with
           | JoinCh id =>
               match contract_GetInfo id with
               | Some node => <[id := node]> reg
               | None => reg
               end
           | QuitCh id => delete id reg
           | _ => reg
           end) reg events.

(** The endpoints of the nodes other than [self] that joined, oldest
    first. *)
Definition joined_endpoints (contract_GetInfo : string -> option Masternode)
    (self : string) (events : list Event) : list discover_Node :=
  omap (λ ev,
          match ev with
          | JoinCh id =>
              if String.eqb id self then None
              else Node <$> contract_GetInfo id
          | _ => None
          end) events.

(** Whether an event is an error of the join stream, of the quit
    stream. *)
Definition is_JoinSubErr (ev : Event) : bool :=
  match ev with JoinSubErr _ => true | _ => false end.
Definition is_QuitSubErr (ev : Event) : bool :=
  match ev with QuitSubErr _ => true | _ => false end.

(** A contract that knows the node C only. *)
Definition contract_C (id : string) : option Masternode :=
  if String.eqb id "C" then Some mnC else None.

(** * Properties *)

(** ** Map iteration: every seed visits each entry once, and every order
    of the entries is the visit of some seed *)

Lemma draw_Permutation {A} (n : nat) (l : list A) x rest :
  draw n l = Some (x, rest) → l ≡ₚ x :: rest.
Proof.
  unfold draw. intros Hd.
  destruct (l !! (n mod length l)%nat) as [y|] eqn:Hl; [|discriminate].
  injection Hd as <- <-.
  rewrite <- (take_drop_middle l _ y Hl) at 1.
  symmetry. apply Permutation_middle.
Qed.

Lemma draw_is_Some {A} (n : nat) (l : list A) :
  l ≠ [] → is_Some (draw n l).
Proof.
  intros Hne. unfold draw.
  destruct (lookup_lt_is_Some_2 l (n mod length l)%nat) as [y Hy].
  - apply Nat.mod_upper_bound. destruct l; [done | simpl; lia].
  - rewrite Hy. eauto.
Qed.

Lemma shuffle_upto_Permutation {A} (k : nat) :
  ∀ (seed : list nat) (l : list A), length l = k → shuffle_upto k seed l ≡ₚ l.
Proof.
  induction k as [|k IH]; intros seed l Hlen.
  - destruct l; [done | discriminate].
  - simpl. destruct (draw_is_Some (hd O seed) l) as [[x rest] Hd].
    { intros ->. discriminate. }
    rewrite Hd. pose proof (draw_Permutation _ _ _ _ Hd) as Hp.
    rewrite Hp. constructor. apply IH.
    apply Permutation_length in Hp. simpl in Hp. lia.
Qed.

Lemma shuffle_Permutation {A} (seed : list nat) (l : list A) :
  shuffle seed l ≡ₚ l.
Proof. by apply shuffle_upto_Permutation. Qed.

Lemma shuffle_complete {A} (l' : list A) :
  ∀ l, l' ≡ₚ l → ∃ seed, shuffle seed l = l'.
Proof.
  induction l' as [|x l' IH]; intros l Hp.
  - apply Permutation_nil in Hp. subst l. by exists [].
  - assert (x ∈ l) as Hin by (rewrite <- Hp; left).
    apply list_elem_of_lookup in Hin as [i Hi].
    pose proof (lookup_lt_Some _ _ _ Hi) as Hlt.
    assert (draw i l = Some (x, take i l ++ drop (S i) l)) as Hd.
    { unfold draw. by rewrite Nat.mod_small, Hi. }
    pose proof (draw_Permutation _ _ _ _ Hd) as Hp'.
    destruct (IH (take i l ++ drop (S i) l)) as [seed Hs].
    { apply (Permutation_cons_inv (a := x)). by etransitivity. }
    exists (i :: seed). unfold shuffle in *.
    apply Permutation_length in Hp'. cbn [length] in Hp'.
    rewrite Hp'. cbn [shuffle_upto hd tl]. rewrite Hd. by f_equal.
Qed.

Lemma range_map_Permutation `{Countable K} {V} (seed : list nat)
    (m : gmap K V) :
  range_map seed m ≡ₚ map_to_list m.
Proof. apply shuffle_Permutation. Qed.

Lemma range_map_complete `{Countable K} {V} (m : gmap K V)
    (l : list (K * V)) :
  l ≡ₚ map_to_list m → ∃ seed, range_map seed m = l.
Proof. apply shuffle_complete. Qed.

Lemma range_map_length `{Countable K} {V} (seed : list nat) (m : gmap K V) :
  length (range_map seed m) = size m.
Proof.
  rewrite (Permutation_length (range_map_Permutation seed m)).
  apply length_map_to_list.
Qed.

(** ** The score map *)

Section RankingFacts.

Variable score : Masternode -> Hash -> Z.

Lemma GetMasternodeScores_range_spec (blockHash : Hash) :
  ∀ (nodes : list (string * Masternode)) (acc : gmap loc Masternode)
    (h : Heap),
    keys_allocated acc h →
    ∃ scores,
      GetMasternodeScores_range score blockHash nodes acc h
        = Returns (scores, h ++ ((λ e, score e.2 blockHash) <$> nodes))
      ∧ (map_to_list scores).*2 ≡ₚ rev nodes.*2 ++ (map_to_list acc).*2
      ∧ ∀ k m, scores !! k = Some m →
               acc !! k = Some m
               ∨ ∃ i e, nodes !! i = Some e ∧ m = e.2
                        ∧ k = (length h + i)%nat.
Proof.
  induction nodes as [|[id m] rest IH]; intros acc h Hacc.
  - exists acc. simpl. rewrite app_nil_r. split; [reflexivity|].
    split; [reflexivity|]. intros k m Hk. by left.
  - cbn [GetMasternodeScores_range CalculateScore]. unfold bind, new_Int.
    assert (acc !! length h = None) as Hfresh.
    { destruct (acc !! length h) eqn:E; [|done].
      specialize (Hacc (length h) (mk_is_Some _ _ E)). lia. }
    destruct (IH (<[length h := m]> acc) (h ++ [score m blockHash]))
      as (scores & Hrun & Hperm & Hkeys).
    { intros k [x Hk]. rewrite length_app. simpl.
      destruct (decide (k = length h)) as [->|Hne]; [lia|].
      rewrite lookup_insert_ne in Hk by done.
      specialize (Hacc k (mk_is_Some _ _ Hk)). lia. }
    exists scores. split_and!.
    + etrans; [exact Hrun|]. cbn [fmap list_fmap snd].
      by rewrite <- app_assoc.
    + rewrite Hperm, (map_to_list_insert acc _ _ Hfresh).
      cbn [fmap list_fmap snd rev]. rewrite <- app_assoc. simpl.
      reflexivity.
    + intros k m' Hk. destruct (Hkeys k m' Hk) as [Hin|(i & e & Hi & -> & ->)].
      * destruct (decide (k = length h)) as [->|Hne].
        -- rewrite lookup_insert_eq in Hin. injection Hin as <-.
           right. exists O, (id, m). split_and!; [done..|lia].
        -- rewrite lookup_insert_ne in Hin by done. by left.
      * right. exists (S i), e. split_and!; [done..|].
        rewrite length_app. simpl. lia.
Qed.

(** The score map of a registry: the call returns, the map has one entry
    per node, and every key addresses the score of its node. *)
Lemma GetMasternodeScores_spec (mm : MasternodeManager)
    (reg : gmap string Masternode) (seed : list nat) (blockHash : Hash)
    (minProtocol : Z) (h : Heap) :
  ∃ scores h',
    GetMasternodeScores score (set_masternodes mm (Some reg)) seed blockHash
      minProtocol h = Returns (scores, h')
    ∧ (map_to_list scores).*2 ≡ₚ (map_to_list reg).*2
    ∧ ∀ k m, scores !! k = Some m → h' !! k = Some (score m blockHash).
Proof.
  unfold GetMasternodeScores, bind.
  cbn [set_masternodes masternodes MasternodeSet.Nodes lift].
  destruct (GetMasternodeScores_range_spec blockHash (range_map seed reg) ∅ h)
    as (scores & Hrun & Hperm & Hkeys).
  { intros k [x Hk]. by rewrite lookup_empty in Hk. }
  exists scores, (h ++ ((λ e, score e.2 blockHash) <$> range_map seed reg)).
  split; [exact Hrun|]. split.
  - rewrite Hperm, map_to_list_empty, app_nil_r, <- Permutation_rev.
    by rewrite (range_map_Permutation seed reg).
  - intros k m Hk. destruct (Hkeys k m Hk) as [He|(i & e & Hi & -> & ->)].
    + by rewrite lookup_empty in He.
    + rewrite lookup_app_r by lia.
      replace (length h + i - length h)%nat with i by lia.
      by rewrite list_lookup_fmap, Hi.
Qed.

Lemma GetMasternodeRank_range_absent (id : string) :
  ∀ (entries : list (loc * Masternode)) (tRank rank : Z),
    Forall (λ e, ID e.2 ≠ id) entries →
    GetMasternodeRank_range id entries tRank rank = rank.
Proof.
  induction entries as [|[k m] rest IH]; intros tRank rank Hall; [done|].
  apply Forall_cons in Hall as [Hm Hrest]. simpl in *.
  destruct (String.eqb_spec id (ID m)) as [->|_]; [done|]. by apply IH.
Qed.

(** The rank of an identity is one more than the number of entries
    visited before the first entry that carries it. *)
Lemma GetMasternodeRank_range_present (id : string) :
  ∀ (entries : list (loc * Masternode)) (tRank rank : Z) (i : nat) e,
    entries !! i = Some e → ID e.2 = id →
    Forall (λ e, ID e.2 ≠ id) (take i entries) →
    GetMasternodeRank_range id entries tRank rank = tRank + Z.of_nat i + 1.
Proof.
  induction entries as [|[k m] rest IH]; intros tRank rank i e Hi He Hbefore;
    [done|].
  destruct i as [|i]; simpl in *.
  - injection Hi as <-. simpl in He. subst id.
    rewrite String.eqb_refl. lia.
  - apply Forall_cons in Hbefore as [Hm Hrest]. simpl in Hm.
    destruct (String.eqb_spec id (ID m)) as [->|_]; [done|].
    rewrite (IH _ _ i e Hi He Hrest). lia.
Qed.

(** Within one visit of entries with distinct identities, the entry at
    position [i] has rank [i + 1]: the ranks are 1, 2, ..., without
    repeats or gaps. *)
Lemma GetMasternodeRank_range_position
    (entries : list (loc * Masternode)) (i : nat) (e : loc * Masternode) :
  NoDup ((λ e, ID e.2) <$> entries) →
  entries !! i = Some e →
  GetMasternodeRank_range (ID e.2) entries 0 0 = Z.of_nat i + 1.
Proof.
  intros Hnd Hi.
  rewrite (GetMasternodeRank_range_present (ID e.2) entries 0 0 i e Hi eq_refl);
    [lia|].
  apply Forall_forall. intros e' Hin Heq.
  apply list_elem_of_lookup in Hin as [j Hj].
  apply lookup_take_Some in Hj as [Hj Hlt].
  assert (((λ e, ID e.2) <$> entries) !! j = Some (ID e.2)) as Hj'.
  { by rewrite list_lookup_fmap, Hj; simpl; rewrite Heq. }
  assert (((λ e, ID e.2) <$> entries) !! i = Some (ID e.2)) as Hi'.
  { by rewrite list_lookup_fmap, Hi. }
  pose proof (NoDup_lookup _ _ _ _ Hnd Hj' Hi'). lia.
Qed.

(** With a current block and a registry, [GetMasternodeRank] returns the
    result of its loop over the score map, and the flag [true]. *)
Lemma GetMasternodeRank_unfold (mm : MasternodeManager)
    (reg : gmap string Masternode) (blk : Block) (seed : list nat)
    (h : Heap) :
  let mm' := set_CurrentBlock (set_masternodes mm (Some reg)) (Some blk) in
  ∃ scores h',
    GetMasternodeScores score mm' seed (block_Hash blk) 1 h
      = Returns (scores, h')
    ∧ (map_to_list scores).*2 ≡ₚ (map_to_list reg).*2
    ∧ ∀ seed' id,
        GetMasternodeRank score mm' (seed, seed') id h
        = Returns
            (GetMasternodeRank_range id (range_map seed' scores) 0 0,
             true, h').
Proof.
  intros mm'.
  destruct (GetMasternodeScores_spec mm reg seed (block_Hash blk) 1 h)
    as (scores & h' & Hrun & Hperm & _).
  exists scores, h'. split; [exact Hrun|]. split; [exact Hperm|].
  intros seed' id.
  unfold GetMasternodeRank, bind. cbn [mm' set_CurrentBlock CurrentBlock fst].
  change (GetMasternodeScores score _ seed (block_Hash blk) 1 h)
    with (GetMasternodeScores score (set_masternodes mm (Some reg))
            seed (block_Hash blk) 1 h).
  by rewrite Hrun.
Qed.

(** An identity carried by no node of the registry gets rank 0 and the
    flag [true]. *)
Lemma GetMasternodeRank_absent (mm : MasternodeManager)
    (reg : gmap string Masternode) (blk : Block)
    (seeds : list nat * list nat) (id : string) (h : Heap) :
  map_Forall (λ _ m, ID m ≠ id) reg →
  ∃ h',
    GetMasternodeRank score
      (set_CurrentBlock (set_masternodes mm (Some reg)) (Some blk))
      seeds id h = Returns (0, true, h').
Proof.
  intros Hreg. destruct seeds as [seed seed'].
  destruct (GetMasternodeRank_unfold mm reg blk seed h)
    as (scores & h' & _ & Hperm & Hrank).
  exists h'. rewrite Hrank. f_equal. f_equal. f_equal.
  apply GetMasternodeRank_range_absent.
  apply Forall_forall. intros [k m] Hin. simpl.
  assert (m ∈ (map_to_list reg).*2) as Hm.
  { rewrite <- Hperm. apply list_elem_of_fmap. exists (k, m). split; [done|].
    by rewrite <- (range_map_Permutation seed' scores). }
  apply list_elem_of_fmap in Hm as ([k' m'] & -> & Hm).
  apply elem_of_map_to_list in Hm. exact (Hreg k' m' Hm).
Qed.

(** A list can be rearranged to hold any of its elements at any of its
    positions. *)
Lemma Permutation_at_position {A} (l : list A) (x : A) (i : nat) :
  x ∈ l → (i < length l)%nat → ∃ l', l' ≡ₚ l ∧ l' !! i = Some x.
Proof.
  intros Hin Hi. apply elem_of_Permutation in Hin as [rest Hrest].
  pose proof (Permutation_length Hrest) as Hlen. simpl in Hlen.
  exists (take i rest ++ x :: drop i rest). split.
  - rewrite Hrest, <- Permutation_middle. by rewrite take_drop.
  - rewrite lookup_app_r; rewrite length_take; [|lia].
    by replace (i - i `min` length rest)%nat with O by lia.
Qed.

(** The rank is the position in the visit, and the visit is free: over a
    registry whose nodes carry distinct identities, a registered identity
    gets any rank from 1 to the size of the registry in some run. *)
Lemma GetMasternodeRank_any_position (mm : MasternodeManager)
    (reg : gmap string Masternode) (blk : Block) (key : string)
    (m : Masternode) (i : nat) (h : Heap) :
  NoDup (ID <$> (map_to_list reg).*2) →
  reg !! key = Some m →
  (i < size reg)%nat →
  ∃ seeds h',
    GetMasternodeRank score
      (set_CurrentBlock (set_masternodes mm (Some reg)) (Some blk))
      seeds (ID m) h = Returns (Z.of_nat i + 1, true, h').
Proof.
  intros Hnd Hm Hi.
  destruct (GetMasternodeRank_unfold mm reg blk [] h)
    as (scores & h' & _ & Hperm & Hrank).
  assert (m ∈ (map_to_list scores).*2) as Hin.
  { rewrite Hperm. apply list_elem_of_fmap. exists (key, m). split; [done|].
    by apply elem_of_map_to_list. }
  apply list_elem_of_fmap in Hin as ([k m'] & -> & Hin). simpl in *.
  destruct (Permutation_at_position (map_to_list scores) (k, m') i Hin)
    as (l & Hl & Hli).
  { rewrite <- (length_fmap snd), Hperm, length_fmap, length_map_to_list.
    exact Hi. }
  destruct (range_map_complete scores l Hl) as [seed' Hseed].
  exists ([], seed'), h'. rewrite Hrank, Hseed. f_equal. f_equal. f_equal.
  apply (GetMasternodeRank_range_position l i (k, m')); [|exact Hli].
  assert ((λ e : loc * Masternode, ID e.2) <$> l
          ≡ₚ ID <$> (map_to_list reg).*2) as Hids.
  { rewrite Hl, <- Hperm, <- list_fmap_compose. done. }
  by rewrite Hids.
Qed.

(** Whenever [GetMasternodeRank] returns, its flag is [true]. *)
Lemma GetMasternodeRank_flag (mm : MasternodeManager)
    (seeds : list nat * list nat) (id : string) (h h' : Heap) (rank : Z)
    (ok : bool) :
  GetMasternodeRank score mm seeds id h = Returns (rank, ok, h') → ok = true.
Proof.
  unfold GetMasternodeRank, bind.
  destruct (CurrentBlock mm) as [blk|]; [|discriminate].
  destruct (GetMasternodeScores _ _ _ _ _ _) as [[scores h1]|]; [|discriminate].
  unfold ret. congruence.
Qed.

Context {TxLockVote : Type}.
Variable is_ProcessTxLockVotes : list TxLockVote -> bool.

(** The gate of [ProcessTxLockVotes] in terms of the rank it is given:
    the votes reach the handler exactly when the flag is set and the rank
    is at most [SIGNATURES_TOTAL]. *)
Lemma ProcessTxLockVotes_gate (mm : MasternodeManager)
    (seeds : list nat * list nat) (votes : list TxLockVote) (h h' : Heap)
    (rank : Z) (ok : bool) :
  GetMasternodeRank score mm seeds (active_ID (active mm)) h
    = Returns (rank, ok, h') →
  ProcessTxLockVotes score is_ProcessTxLockVotes mm seeds votes h
    = Returns (if ok && (rank <=? SIGNATURES_TOTAL) then
                 is_ProcessTxLockVotes votes
               else false, h').
Proof.
  intros Hrank. unfold ProcessTxLockVotes, bind. rewrite Hrank.
  destruct ok; [|done]. simpl.
  destruct (Z.gtb_spec rank SIGNATURES_TOTAL), (Z.leb_spec rank SIGNATURES_TOTAL);
    try lia; done.
Qed.

(** The boundary of the gate: rank 10 passes, rank 11 does not. *)
Lemma ProcessTxLockVotes_rank_10 (mm : MasternodeManager)
    (seeds : list nat * list nat) (votes : list TxLockVote) (h h' : Heap) :
  GetMasternodeRank score mm seeds (active_ID (active mm)) h
    = Returns (10, true, h') →
  ProcessTxLockVotes score is_ProcessTxLockVotes mm seeds votes h
    = Returns (is_ProcessTxLockVotes votes, h').
Proof. intros Hrank. by rewrite (ProcessTxLockVotes_gate _ _ _ _ _ _ _ Hrank). Qed.

Lemma ProcessTxLockVotes_rank_11 (mm : MasternodeManager)
    (seeds : list nat * list nat) (votes : list TxLockVote) (h h' : Heap) :
  GetMasternodeRank score mm seeds (active_ID (active mm)) h
    = Returns (11, true, h') →
  ProcessTxLockVotes score is_ProcessTxLockVotes mm seeds votes h
    = Returns (false, h').
Proof. intros Hrank. by rewrite (ProcessTxLockVotes_gate _ _ _ _ _ _ _ Hrank). Qed.

End RankingFacts.

(** Two nodes with the same score still get an entry each. *)
Example GetMasternodeScores_equal_scores :
  ∃ scores,
    GetMasternodeScores score_constant (manager_A reg_AB) [] [9] 1 []
      = Returns (scores, [42; 42])
    ∧ scores !! 0%nat = Some mnA ∧ scores !! 1%nat = Some mnB
    ∧ size scores = 2%nat.
Proof. eexists. split; [vm_compute; reflexivity|]. by vm_compute. Qed.

(** C10: for every registry and block hash, [GetMasternodeScores] returns
    a map with exactly one entry per registered masternode: its size is
    the size of the registry and its values are the registry's nodes,
    whatever the scores are (equal or not), because every entry is keyed
    by the address of a score object of its own, which holds the score of
    the entry's node. *)
Theorem C10_scores_one_entry_per_masternode
    (score : Masternode -> Hash -> Z) (mm : MasternodeManager)
    (reg : gmap string Masternode) (seed : list nat) (blockHash : Hash)
    (minProtocol : Z) (h : Heap) :
  ∃ scores h',
    GetMasternodeScores score (set_masternodes mm (Some reg)) seed blockHash
      minProtocol h = Returns (scores, h')
    ∧ size scores = size reg
    ∧ (map_to_list scores).*2 ≡ₚ (map_to_list reg).*2
    ∧ ∀ k m, scores !! k = Some m → h' !! k = Some (score m blockHash).
Proof.
  destruct (GetMasternodeScores_spec score mm reg seed blockHash minProtocol h)
    as (scores & h' & Hrun & Hperm & Hkeys).
  exists scores, h'. split; [exact Hrun|]. split; [|by split].
  rewrite <- !length_map_to_list.
  rewrite <- (length_fmap snd (map_to_list scores)).
  rewrite <- (length_fmap snd (map_to_list reg)).
  by apply Permutation_length.
Qed.

(** C1: on the registry {A, B}, where A is below the protocol floor 1
    that [GetMasternodeRank] passes and has the lower score, a run whose
    range visits A first ranks A first and B second: the minimum protocol
    version is not applied and the scores do not order the ranks. *)
Theorem C1_rank_ignores_protocol_floor_and_score :
  ProtocolVersion mnA < 1
  ∧ score_by_height mnA [9] < score_by_height mnB [9]
  ∧ GetMasternodeRank score_by_height (manager_A reg_AB) ([], [1%nat]) "A" []
    = Returns (1, true, [5; 7])
  ∧ GetMasternodeRank score_by_height (manager_A reg_AB) ([], [1%nat]) "B" []
    = Returns (2, true, [5; 7]).
Proof. by vm_compute. Qed.

(** C4: on the registry {A, B}, for every score function, two runs of
    [GetMasternodeRank] for A that differ only in the order in which the
    range visits the score map return rank 2 and rank 1. *)
Theorem C4_rank_depends_on_map_iteration_order
    (score : Masternode -> Hash -> Z) :
  GetMasternodeRank score (manager_A reg_AB) ([], []) "A" []
    = Returns (2, true, [score mnA [9]; score mnB [9]])
  ∧ GetMasternodeRank score (manager_A reg_AB) ([], [1%nat]) "A" []
    = Returns (1, true, [score mnA [9]; score mnB [9]]).
Proof. by vm_compute. Qed.

(** C6: for an identity that no node of the registry carries (A, over the
    registry {B}), [GetMasternodeRank] returns rank 0 with the flag
    [true], for every score function, iteration order and heap. *)
Theorem C6_absent_identity_flagged_found
    (score : Masternode -> Hash -> Z) (seeds : list nat * list nat)
    (h : Heap) :
  reg_B !! "A"%string = None
  ∧ ∃ h', GetMasternodeRank score (manager_A reg_B) seeds "A" h
          = Returns (0, true, h').
Proof.
  split; [done|].
  apply (GetMasternodeRank_absent score (manager_A reg_B) reg_B block_9).
  by apply map_Forall_singleton.
Qed.

(** C5: the node A is not in the registry {B}, yet its lock votes pass
    the gate of [ProcessTxLockVotes] and reach the handler: with a handler
    that accepts, the call returns [true]. *)
Theorem C5_absent_identity_passes_gate
    (score : Masternode -> Hash -> Z) (TxLockVote : Type)
    (votes : list TxLockVote) (seeds : list nat * list nat) (h : Heap) :
  reg_B !! active_ID (active (manager_A reg_B)) = None
  ∧ ∃ h', ProcessTxLockVotes score (λ _, true) (manager_A reg_B) seeds votes h
          = Returns (true, h').
Proof.
  split; [done|].
  destruct (GetMasternodeRank_absent score (manager_A reg_B) reg_B block_9
              seeds "A" h) as [h' Hrank].
  { by apply map_Forall_singleton. }
  exists h'.
  by rewrite (ProcessTxLockVotes_gate score (λ _, true) (manager_A reg_B)
                seeds votes h h' 0 true Hrank).
Qed.

(** ** Payment winner *)

Lemma range_map_nonempty `{Countable K} {V} (seed : list nat) (m : gmap K V) :
  m ≠ ∅ → range_map seed m ≠ [].
Proof.
  intros Hne Hnil. apply Hne, map_size_empty_iff.
  by rewrite <- (range_map_length seed m), Hnil.
Qed.

Section PaymentFacts.

Variable score : Masternode -> Hash -> Z.

(** The height map is never created, so filing the first node faults. *)
Lemma GetNextMasternodeInQueueForPayment_nodes_nil_map
    (nodes : list (string * Masternode)) (paids : list Z) (h : Heap) :
  nodes ≠ [] →
  GetNextMasternodeInQueueForPayment_nodes nodes paids None h
    = Panics NilMapAssign.
Proof. destruct nodes as [|[id node] rest]; [done|]. reflexivity. Qed.

Lemma GetNextMasternodeInQueueForPayment_nonempty (mm : MasternodeManager)
    (reg : gmap string Masternode) (seed : list nat) (block : Hash)
    (h : Heap) :
  reg ≠ ∅ →
  GetNextMasternodeInQueueForPayment score (set_masternodes mm (Some reg))
    seed block h = Panics NilMapAssign.
Proof.
  intros Hne. unfold GetNextMasternodeInQueueForPayment, bind.
  cbn [set_masternodes masternodes MasternodeSet.Len MasternodeSet.Nodes
       lift].
  rewrite GetNextMasternodeInQueueForPayment_nodes_nil_map; [done|].
  by apply range_map_nonempty.
Qed.

Lemma GetNextMasternodeInQueueForPayment_empty (mm : MasternodeManager)
    (seed : list nat) (block : Hash) (h : Heap) :
  GetNextMasternodeInQueueForPayment score (set_masternodes mm (Some ∅))
    seed block h = Returns (None, None, h).
Proof. reflexivity. Qed.

(** Had the accumulator been reached, the first comparison would fault
    as well: [highest] is nil when the second loop starts. *)
Lemma GetNextMasternodeInQueueForPayment_paids_nil_highest (block : Hash)
    (sortMap : gmap Z Masternode) (tenthNetWork i : Z) (rest : list Z)
    (node : Masternode) (winner : option Masternode) (h : Heap) :
  sortMap !! i = Some node →
  GetNextMasternodeInQueueForPayment_paids score block (Some sortMap)
    tenthNetWork (i :: rest) 0 None winner h = Panics NilDereference.
Proof.
  intros Hi. cbn [GetNextMasternodeInQueueForPayment_paids map_index].
  rewrite Hi. reflexivity.
Qed.

End PaymentFacts.

(** C2: on a registry of size 3, for every score function, iteration
    order, block hash and heap, [GetNextMasternodeInQueueForPayment]
    returns no winner: it faults on the assignment into the height map,
    which is nil. *)
Theorem C2_payment_faults_on_three_nodes
    (score : Masternode -> Hash -> Z) (seed : list nat) (block : Hash)
    (h : Heap) :
  size reg_ABC = 3%nat
  ∧ GetNextMasternodeInQueueForPayment score (manager_A reg_ABC) seed block h
    = Panics NilMapAssign.
Proof.
  split; [by vm_compute|].
  apply (GetNextMasternodeInQueueForPayment_nonempty score
           (manager_A reg_ABC) reg_ABC).
  apply insert_non_empty.
Qed.

(** C3: for every non-empty registry, score function, iteration order,
    block hash and heap, [GetNextMasternodeInQueueForPayment] does not
    run to completion: it faults with an assignment to an entry of a nil
    map. *)
Theorem C3_payment_faults_on_nonempty_registry
    (score : Masternode -> Hash -> Z) (mm : MasternodeManager)
    (reg : gmap string Masternode) (seed : list nat) (block : Hash)
    (h : Heap) :
  reg ≠ ∅ →
  GetNextMasternodeInQueueForPayment score (set_masternodes mm (Some reg))
    seed block h = Panics NilMapAssign.
Proof. apply GetNextMasternodeInQueueForPayment_nonempty. Qed.

(** The single-node registry {B} is such a registry. *)
Lemma C3_payment_faults_on_nonempty_registry_witness :
  reg_B ≠ ∅
  ∧ GetNextMasternodeInQueueForPayment score_by_height (manager_A reg_B)
      [] [9] [] = Panics NilMapAssign.
Proof.
  assert (reg_B ≠ ∅) as Hne by apply insert_non_empty.
  split; [exact Hne|].
  exact (C3_payment_faults_on_nonempty_registry score_by_height
           (manager_A reg_B) reg_B [] [9] [] Hne).
Defined.

(** C7: on a registry of size 0, for every score function, iteration
    order, block hash and heap, [GetNextMasternodeInQueueForPayment]
    returns the pair (nil, nil): no winner and no error. *)
Theorem C7_payment_on_empty_registry_returns_nil_nil
    (score : Masternode -> Hash -> Z) (mm : MasternodeManager)
    (reg : gmap string Masternode) (seed : list nat) (block : Hash)
    (h : Heap) :
  size reg = 0%nat →
  GetNextMasternodeInQueueForPayment score (set_masternodes mm (Some reg))
    seed block h = Returns (None, None, h).
Proof.
  intros Hsize. apply map_size_empty_iff in Hsize. subst reg.
  apply GetNextMasternodeInQueueForPayment_empty.
Qed.

(** The registry without nodes has size 0. *)
Lemma C7_payment_on_empty_registry_returns_nil_nil_witness :
  size (∅ : gmap string Masternode) = 0%nat
  ∧ GetNextMasternodeInQueueForPayment score_by_height (manager_A ∅)
      [] [9] [] = Returns (None, None, []).
Proof.
  split; [reflexivity|].
  exact (C7_payment_on_empty_registry_returns_nil_nil score_by_height
           (manager_A ∅) ∅ [] [9] [] eq_refl).
Defined.

(** ** Active masternode *)

Lemma bytesEqual_spec (a b : list Z) : bytesEqual a b = true ↔ a = b.
Proof. unfold bytesEqual. apply bool_decide_eq_true. Qed.

Lemma IP_Equal_refl (ip : list Z) : IP_Equal ip ip = true.
Proof.
  unfold IP_Equal. rewrite Nat.eqb_refl. by apply bytesEqual_spec.
Qed.

(** Addresses of the same length are equal exactly when their bytes
    are. *)
Lemma IP_Equal_same_length (ip x : list Z) :
  length ip = length x → (IP_Equal ip x = true ↔ ip = x).
Proof.
  intros Hlen. unfold IP_Equal.
  rewrite (proj2 (Nat.eqb_eq _ _) Hlen). apply bytesEqual_spec.
Qed.

Section ActiveFacts.

Variables ACTIVE_MASTERNODE_NOT_CAPABLE ACTIVE_MASTERNODE_STARTED : Z.
Variable contract_GetInfo : string -> option Masternode.

Lemma updateActiveMasternode_keeps (mn mn' : MasternodeManager) :
  updateActiveMasternode ACTIVE_MASTERNODE_NOT_CAPABLE
    ACTIVE_MASTERNODE_STARTED mn = Returns mn' →
  masternodes mn' = masternodes mn
  ∧ active_ID (active mn') = active_ID (active mn)
  ∧ active_Addr (active mn') = active_Addr (active mn)
  ∧ CurrentBlock mn' = CurrentBlock mn ∧ srvr mn' = srvr mn.
Proof.
  unfold updateActiveMasternode, and_then.
  destruct (MasternodeSet.Node _ _) as [n|]; [|discriminate].
  by injection 1 as <-.
Qed.

(** A stream error only clears the flag of its subscription. *)
Lemma masternodeLoop_select_JoinSubErr (st : LoopState) (err : string) :
  masternodeLoop_select ACTIVE_MASTERNODE_NOT_CAPABLE
    ACTIVE_MASTERNODE_STARTED contract_GetInfo st (JoinSubErr (Some err))
  = Returns {| loop_mn := loop_mn st; joinSub := false;
               quitSub := quitSub st |}.
Proof. reflexivity. Qed.

Lemma masternodeLoop_select_QuitSubErr (st : LoopState) (err : string) :
  masternodeLoop_select ACTIVE_MASTERNODE_NOT_CAPABLE
    ACTIVE_MASTERNODE_STARTED contract_GetInfo st (QuitSubErr (Some err))
  = Returns {| loop_mn := loop_mn st; joinSub := joinSub st;
               quitSub := false |}.
Proof. reflexivity. Qed.

(** An error channel that delivers nil, as a closed one does, makes the
    round fault at [err.Error()]. *)
Lemma masternodeLoop_select_nil_error (st : LoopState) :
  masternodeLoop_select ACTIVE_MASTERNODE_NOT_CAPABLE
    ACTIVE_MASTERNODE_STARTED contract_GetInfo st (JoinSubErr None)
  = Panics NilDereference
  ∧ masternodeLoop_select ACTIVE_MASTERNODE_NOT_CAPABLE
      ACTIVE_MASTERNODE_STARTED contract_GetInfo st (QuitSubErr None)
    = Panics NilDereference.
Proof. by split. Qed.

(** Once in the loop, the function does not return to its caller,
    whatever it receives: after any events it is back in the [select]
    (or has faulted). *)
Lemma masternodeLoop_for_never_returns (events : list Event) :
  ∀ (st : LoopState) (r : LoopStatus),
    masternodeLoop_for ACTIVE_MASTERNODE_NOT_CAPABLE
      ACTIVE_MASTERNODE_STARTED contract_GetInfo events st = Returns r →
    ∃ st', r = InSelect st'.
Proof.
  induction events as [|ev rest IH]; intros st r Hrun; simpl in Hrun.
  - injection Hrun as <-. by exists st.
  - unfold and_then in Hrun at 1.
    destruct (masternodeLoop_select _ _ _ st ev) as [st1|]; [|discriminate].
    by apply (IH st1).
Qed.

(** Over a registry that is present, and as long as no nil error is
    received, the loop does not fault either: it handles every event and
    waits for the next. *)
Lemma masternodeLoop_select_total (st : LoopState) (ev : Event)
    (reg : gmap string Masternode) :
  masternodes (loop_mn st) = Some reg →
  received_error ev ≠ Some None →
  ∃ st' reg',
    masternodeLoop_select ACTIVE_MASTERNODE_NOT_CAPABLE
      ACTIVE_MASTERNODE_STARTED contract_GetInfo st ev = Returns st'
    ∧ masternodes (loop_mn st') = Some reg'.
Proof.
  intros Hreg Herr. destruct ev as [id|id|[err|]|[err|]]; simpl in *;
    try done.
  - unfold MasternodeSet.NodeJoin. rewrite Hreg.
    destruct (contract_GetInfo id) as [node|]; simpl.
    + destruct (String.eqb id _); simpl; eauto.
    + eauto.
  - unfold MasternodeSet.NodeQuit. rewrite Hreg. simpl.
    destruct (String.eqb id _); simpl; eauto.
  - eauto.
  - eauto.
Qed.

Lemma masternodeLoop_for_total (events : list Event) :
  ∀ (st : LoopState) (reg : gmap string Masternode),
    masternodes (loop_mn st) = Some reg →
    Forall (λ ev, received_error ev ≠ Some None) events →
    ∃ st',
      masternodeLoop_for ACTIVE_MASTERNODE_NOT_CAPABLE
        ACTIVE_MASTERNODE_STARTED contract_GetInfo events st
      = Returns (InSelect st').
Proof.
  induction events as [|ev rest IH]; intros st reg Hreg Hev; simpl.
  - by exists st.
  - apply Forall_cons in Hev as [Hev Hrest].
    destruct (masternodeLoop_select_total st ev reg Hreg Hev)
      as (st1 & reg1 & -> & Hreg1).
    simpl. by apply (IH st1 reg1).
Qed.

End ActiveFacts.

(** C9: for every registry and local configuration,
    [updateActiveMasternode] returns a manager that differs from the one
    it was given in the stored state only; the state stored in the
    returned manager is NOT_CAPABLE when the local identity is absent
    from the registry, NOT_CAPABLE when the registered port or IP differs
    from the local address, and STARTED otherwise; it is one of the two,
    and running the evaluation again on the result changes nothing. *)
Theorem C9_updateActiveMasternode_states
    (ACTIVE_MASTERNODE_NOT_CAPABLE ACTIVE_MASTERNODE_STARTED : Z)
    (mn : MasternodeManager) (reg : gmap string Masternode) :
  let mn0 := set_masternodes mn (Some reg) in
  let id := active_ID (active mn) in
  let addr := active_Addr (active mn) in
  let update := updateActiveMasternode ACTIVE_MASTERNODE_NOT_CAPABLE
                  ACTIVE_MASTERNODE_STARTED in
  ∃ mn' state,
    update mn0 = Returns mn'
    ∧ mn' = set_active mn0 (SetState (active mn) state)
    ∧ active_state (active mn') = state
    ∧ masternodes mn' = Some reg
    ∧ active_ID (active mn') = id
    ∧ active_Addr (active mn') = addr
    ∧ CurrentBlock mn' = CurrentBlock mn
    ∧ srvr mn' = srvr mn
    ∧ (reg !! id = None →
       active_state (active mn') = ACTIVE_MASTERNODE_NOT_CAPABLE)
    ∧ (∀ n, reg !! id = Some n →
            TCP (Node n) ≠ Addr_Port addr
            ∨ IP_Equal (IP (Node n)) (Addr_IP addr) = false →
            active_state (active mn') = ACTIVE_MASTERNODE_NOT_CAPABLE)
    ∧ (∀ n, reg !! id = Some n →
            TCP (Node n) = Addr_Port addr →
            IP_Equal (IP (Node n)) (Addr_IP addr) = true →
            active_state (active mn') = ACTIVE_MASTERNODE_STARTED)
    ∧ (active_state (active mn') = ACTIVE_MASTERNODE_NOT_CAPABLE
       ∨ active_state (active mn') = ACTIVE_MASTERNODE_STARTED)
    ∧ update mn' = Returns mn'.
Proof.
  intros mn0 id addr update. subst update mn0.
  unfold updateActiveMasternode, and_then.
  cbn [set_masternodes masternodes active MasternodeSet.Node].
  fold id addr.
  destruct (reg !! id) as [n|] eqn:Hn.
  - destruct (Z.eqb_spec (TCP (Node n)) (Addr_Port addr)) as [Hport|Hport];
      cbn [negb].
    + destruct (IP_Equal (IP (Node n)) (Addr_IP addr)) eqn:Hip; cbn [negb].
      * eexists _, ACTIVE_MASTERNODE_STARTED. split; [reflexivity|].
        cbn [set_masternodes set_active SetState masternodes active
             MasternodeSet.Node active_ID active_Addr active_state
             CurrentBlock srvr].
        fold id addr. rewrite Hn, (proj2 (Z.eqb_eq _ _) Hport), Hip.
        split_and!; try done.
        -- intros n' [= <-] [?|?]; [done|congruence].
        -- by right.
      * eexists _, ACTIVE_MASTERNODE_NOT_CAPABLE. split; [reflexivity|].
        cbn [set_masternodes set_active SetState masternodes active
             MasternodeSet.Node active_ID active_Addr active_state
             CurrentBlock srvr].
        fold id addr. rewrite Hn, (proj2 (Z.eqb_eq _ _) Hport), Hip.
        split_and!; try done.
        -- intros n' [= <-] _ ?. congruence.
        -- by left.
    + eexists _, ACTIVE_MASTERNODE_NOT_CAPABLE. split; [reflexivity|].
      cbn [set_masternodes set_active SetState masternodes active
           MasternodeSet.Node active_ID active_Addr active_state
           CurrentBlock srvr].
      fold id addr. rewrite Hn, (proj2 (Z.eqb_neq _ _) Hport).
      split_and!; try done.
      * intros n' [= <-] ? _. done.
      * by left.
  - eexists _, ACTIVE_MASTERNODE_NOT_CAPABLE. split; [reflexivity|].
    cbn [set_masternodes set_active SetState masternodes active
         MasternodeSet.Node active_ID active_Addr active_state
         CurrentBlock srvr].
    fold id addr. rewrite Hn. split_and!; try done. by left.
Qed.

(** C8: with both subscriptions in place, the loop that receives a join
    stream error and then a quit event for B is still in its [select]
    afterwards (it has not returned), the join subscription is dropped,
    and the quit that came after the error has been applied: B is gone
    from the registry. *)
Theorem C8_loop_continues_after_stream_error
    (ACTIVE_MASTERNODE_NOT_CAPABLE ACTIVE_MASTERNODE_STARTED : Z)
    (contract_GetInfo : string -> option Masternode) :
  reg_AB !! "B"%string = Some mnB
  ∧ ∃ st,
      masternodeLoop ACTIVE_MASTERNODE_NOT_CAPABLE ACTIVE_MASTERNODE_STARTED
        contract_GetInfo (manager_A reg_AB) None None
        [JoinSubErr (Some "stream closed"%string); QuitCh "B"]
      = Returns (InSelect st)
      ∧ joinSub st = false ∧ quitSub st = true
      ∧ masternodes (loop_mn st) = Some (delete "B"%string reg_AB)
      ∧ delete "B"%string reg_AB !! "B"%string = None.
Proof.
  split; [by vm_compute|].
  eexists. split; [vm_compute; reflexivity|]. by vm_compute.
Qed.

(** * Further properties of the manager *)

(** ** Ranks *)

Section RankFacts.

Variable score : Masternode -> Hash -> Z.

(** An identity carried by a visited entry gets the position of the first
    such entry, counted from one. *)
Lemma GetMasternodeRank_range_first (id : string) :
  ∀ (entries : list (loc * Masternode)) (tRank rank : Z),
    Exists (λ e, ID e.2 = id) entries →
    ∃ i e, entries !! i = Some e ∧ ID e.2 = id
           ∧ GetMasternodeRank_range id entries tRank rank
             = tRank + Z.of_nat i + 1.
Proof.
  induction entries as [|[k m] rest IH]; intros tRank rank Hex.
  - by apply Exists_nil in Hex.
  - simpl. destruct (String.eqb_spec id (ID m)) as [Heq|Hne].
    + exists O, (k, m). split_and!; [done|done|lia].
    + apply Exists_cons in Hex as [Hhd|Htl]; [simpl in Hhd; congruence|].
      destruct (IH (tRank + 1) rank Htl) as (i & e & Hi & He & Hrank).
      exists (S i), e. split_and!; [done|done|]. rewrite Hrank. lia.
Qed.

(** One run of [GetMasternodeRank] visits one list of entries, whose nodes
    are the nodes of the registry, whatever identity is asked for. *)
Lemma GetMasternodeRank_entries (mm : MasternodeManager)
    (reg : gmap string Masternode) (blk : Block)
    (seeds : list nat * list nat) (h : Heap) :
  ∃ entries h',
    entries.*2 ≡ₚ (map_to_list reg).*2
    ∧ ∀ id,
        GetMasternodeRank score
          (set_CurrentBlock (set_masternodes mm (Some reg)) (Some blk))
          seeds id h
        = Returns (GetMasternodeRank_range id entries 0 0, true, h').
Proof.
  destruct seeds as [seed seed'].
  destruct (GetMasternodeRank_unfold score mm reg blk seed h)
    as (scores & h' & _ & Hperm & Hrank).
  exists (range_map seed' scores), h'. split; [|by intros id; apply Hrank].
  by rewrite (range_map_Permutation seed' scores).
Qed.

Lemma entries_carry (entries : list (loc * Masternode))
    (reg : gmap string Masternode) (id : string) :
  entries.*2 ≡ₚ (map_to_list reg).*2 →
  Exists (λ e, ID e.2 = id) entries
  ↔ ∃ k m, reg !! k = Some m ∧ ID m = id.
Proof.
  intros Hperm. rewrite Exists_exists. split.
  - intros ([k m] & Hin & Hid). simpl in Hid.
    assert (m ∈ (map_to_list reg).*2) as Hm.
    { rewrite <- Hperm. apply list_elem_of_fmap. by exists (k, m). }
    apply list_elem_of_fmap in Hm as ([k' m'] & -> & Hm).
    apply elem_of_map_to_list in Hm. by exists k', m'.
  - intros (k & m & Hm & Hid).
    assert (m ∈ entries.*2) as Hin.
    { rewrite Hperm. apply list_elem_of_fmap. exists (k, m). split; [done|].
      by apply elem_of_map_to_list. }
    apply list_elem_of_fmap in Hin as ([k' m'] & -> & Hin). by exists (k', m').
Qed.

Lemma entries_length (entries : list (loc * Masternode))
    (reg : gmap string Masternode) :
  entries.*2 ≡ₚ (map_to_list reg).*2 → length entries = size reg.
Proof.
  intros Hperm. apply Permutation_length in Hperm.
  by rewrite !length_fmap, length_map_to_list in Hperm.
Qed.

(** The rank of a run, by cases on whether a node carries the identity. *)
Lemma GetMasternodeRank_cases (entries : list (loc * Masternode))
    (reg : gmap string Masternode) (id : string) :
  entries.*2 ≡ₚ (map_to_list reg).*2 →
  (map_Forall (λ _ m, ID m ≠ id) reg
   ∧ GetMasternodeRank_range id entries 0 0 = 0)
  ∨ ((∃ k m, reg !! k = Some m ∧ ID m = id)
     ∧ ∃ i e, entries !! i = Some e ∧ ID e.2 = id
              ∧ GetMasternodeRank_range id entries 0 0 = Z.of_nat i + 1).
Proof.
  intros Hperm.
  destruct (decide (Exists (λ e, ID e.2 = id) entries)) as [Hex|Hnex].
  - right. split; [by apply (entries_carry entries reg id Hperm)|].
    destruct (GetMasternodeRank_range_first id entries 0 0 Hex)
      as (i & e & Hi & He & Hrank).
    exists i, e. split_and!; [done|done|]. rewrite Hrank. lia.
  - left. split.
    + intros k m Hm Hid. apply Hnex.
      apply (entries_carry entries reg id Hperm). by exists k, m.
    + apply GetMasternodeRank_range_absent.
      by apply Forall_Exists_neg in Hnex.
Qed.

End RankFacts.

(** X1: over any registry, with a current block, [GetMasternodeRank]
    returns with the flag [true] and a rank between 0 and the number of
    registered nodes, for every identity, score function and iteration
    order. *)
Theorem X1_rank_within_registry_size
    (score : Masternode -> Hash -> Z) (mm : MasternodeManager)
    (reg : gmap string Masternode) (blk : Block)
    (seeds : list nat * list nat) (id : string) (h : Heap) :
  ∃ rank h',
    GetMasternodeRank score
      (set_CurrentBlock (set_masternodes mm (Some reg)) (Some blk))
      seeds id h = Returns (rank, true, h')
    ∧ 0 ≤ rank ≤ Z.of_nat (size reg).
Proof.
  destruct (GetMasternodeRank_entries score mm reg blk seeds h)
    as (entries & h' & Hperm & Hrank).
  exists (GetMasternodeRank_range id entries 0 0), h'.
  split; [apply Hrank|].
  pose proof (entries_length entries reg Hperm) as Hlen.
  destruct (GetMasternodeRank_cases entries reg id Hperm)
    as [[_ ->]|[_ (i & e & Hi & _ & ->)]]; [lia|].
  apply lookup_lt_Some in Hi. lia.
Qed.

(** X2: the rank [GetMasternodeRank] returns is never negative; it is 0
    exactly when no registered node carries the identity, and an identity
    carried by some node gets a rank of at least 1 (and at most the
    number of registered nodes). *)
Theorem X2_rank_zero_iff_not_registered
    (score : Masternode -> Hash -> Z) (mm : MasternodeManager)
    (reg : gmap string Masternode) (blk : Block)
    (seeds : list nat * list nat) (id : string) (h : Heap) :
  ∃ rank h',
    GetMasternodeRank score
      (set_CurrentBlock (set_masternodes mm (Some reg)) (Some blk))
      seeds id h = Returns (rank, true, h')
    ∧ 0 ≤ rank
    ∧ (rank = 0 ↔ map_Forall (λ _ m, ID m ≠ id) reg)
    ∧ ((∃ k m, reg !! k = Some m ∧ ID m = id) →
       1 ≤ rank ≤ Z.of_nat (size reg)).
Proof.
  destruct (GetMasternodeRank_entries score mm reg blk seeds h)
    as (entries & h' & Hperm & Hrank).
  exists (GetMasternodeRank_range id entries 0 0), h'.
  split; [apply Hrank|].
  pose proof (entries_length entries reg Hperm) as Hlen.
  destruct (GetMasternodeRank_cases entries reg id Hperm)
    as [[Habs ->]|[(k & m & Hm & Hid) (i & e & Hi & _ & ->)]].
  - split; [lia|]. split; [done|].
    intros (k & m & Hm & Hid). by destruct (Habs k m Hm).
  - apply lookup_lt_Some in Hi. split; [lia|]. split; [|lia].
    split; [lia|]. intros Habs. by destruct (Habs k m Hm).
Qed.

(** The first entry that carries an identity determines its rank. *)
Lemma GetMasternodeRank_range_first_entry (id : string) :
  ∀ (entries : list (loc * Masternode)) (tRank rank : Z),
    Exists (λ e, ID e.2 = id) entries →
    ∃ i e, entries !! i = Some e ∧ ID e.2 = id
           ∧ Forall (λ e', ID e'.2 ≠ id) (take i entries)
           ∧ GetMasternodeRank_range id entries tRank rank
             = tRank + Z.of_nat i + 1.
Proof.
  induction entries as [|[k m] rest IH]; intros tRank rank Hex.
  - by apply Exists_nil in Hex.
  - simpl. destruct (String.eqb_spec id (ID m)) as [Heq|Hne].
    + exists O, (k, m). split_and!; [done|done|by constructor|lia].
    + apply Exists_cons in Hex as [Hhd|Htl]; [simpl in Hhd; congruence|].
      destruct (IH (tRank + 1) rank Htl) as (i & e & Hi & He & Hbefore & Hrank).
      exists (S i), e. split_and!; [done|done| |rewrite Hrank; lia].
      cbn [take]. constructor; [simpl; congruence|done].
Qed.

(** X3: the rank of a registered identity is its position in that call's
    own visit of the score map: [GetMasternodeRank] ranges over the map
    [GetMasternodeScores] has just built, and the rank it returns is one
    more than the number of entries visited before the first entry that
    carries the identity, all of which carry other identities. *)
Theorem X3_rank_is_position_in_the_visit
    (score : Masternode -> Hash -> Z) (mm : MasternodeManager)
    (reg : gmap string Masternode) (blk : Block)
    (seeds : list nat * list nat) (id : string) (h : Heap) :
  (∃ k m, reg !! k = Some m ∧ ID m = id) →
  ∃ scores h' i e,
    GetMasternodeScores score
      (set_CurrentBlock (set_masternodes mm (Some reg)) (Some blk))
      (fst seeds) (block_Hash blk) 1 h = Returns (scores, h')
    ∧ range_map (snd seeds) scores !! i = Some e
    ∧ ID e.2 = id
    ∧ Forall (λ e', ID e'.2 ≠ id) (take i (range_map (snd seeds) scores))
    ∧ GetMasternodeRank score
        (set_CurrentBlock (set_masternodes mm (Some reg)) (Some blk))
        seeds id h = Returns (Z.of_nat i + 1, true, h').
Proof.
  intros Hcarried. destruct seeds as [seed seed'].
  destruct (GetMasternodeRank_unfold score mm reg blk seed h)
    as (scores & h' & Hscores & Hperm & Hrank).
  assert ((range_map seed' scores).*2 ≡ₚ (map_to_list reg).*2) as Hvisit.
  { by rewrite (range_map_Permutation seed' scores). }
  apply (entries_carry _ reg id Hvisit) in Hcarried.
  destruct (GetMasternodeRank_range_first_entry id _ 0 0 Hcarried)
    as (i & e & Hi & He & Hbefore & Hr).
  exists scores, h', i, e. cbn [fst snd].
  split_and!; [exact Hscores|exact Hi|exact He|exact Hbefore|].
  rewrite Hrank, Hr. reflexivity.
Qed.

(** Over {A, B}, the identity B in the run that visits A's entry first. *)
Lemma X3_rank_is_position_in_the_visit_witness :
  (∃ k m, reg_AB !! k = Some m ∧ ID m = "B"%string)
  ∧ ∃ scores h' i e,
      GetMasternodeScores score_by_height (manager_A reg_AB) [] [9] 1 []
        = Returns (scores, h')
      ∧ range_map [1%nat] scores !! i = Some e
      ∧ ID e.2 = "B"%string
      ∧ Forall (λ e', ID e'.2 ≠ "B"%string) (take i (range_map [1%nat] scores))
      ∧ GetMasternodeRank score_by_height (manager_A reg_AB) ([], [1%nat])
          "B" [] = Returns (Z.of_nat i + 1, true, h').
Proof.
  assert (∃ k m, reg_AB !! k = Some m ∧ ID m = "B"%string) as Hcarried.
  { exists "B"%string, mnB. split; [by vm_compute|reflexivity]. }
  split; [exact Hcarried|].
  exact (X3_rank_is_position_in_the_visit score_by_height (manager_A reg_AB)
           reg_AB block_9 ([], [1%nat]) "B" [] Hcarried).
Defined.

(** X4: the rank is the position in the visit of the score map, which Go
    leaves free: over a registry whose nodes carry distinct identities,
    every registered identity gets every rank from 1 to the size of the
    registry in some run. *)
Theorem X4_every_rank_is_possible
    (score : Masternode -> Hash -> Z) (mm : MasternodeManager)
    (reg : gmap string Masternode) (blk : Block) (key : string)
    (m : Masternode) (i : nat) (h : Heap) :
  NoDup (ID <$> (map_to_list reg).*2) →
  reg !! key = Some m →
  (i < size reg)%nat →
  ∃ seeds h',
    GetMasternodeRank score
      (set_CurrentBlock (set_masternodes mm (Some reg)) (Some blk))
      seeds (ID m) h = Returns (Z.of_nat i + 1, true, h').
Proof. apply GetMasternodeRank_any_position. Qed.

(** The node B of the registry {A, B} can get rank 1 and rank 2. *)
Lemma X4_every_rank_is_possible_witness :
  (∃ seeds h',
     GetMasternodeRank score_by_height (manager_A reg_AB) seeds "B" []
     = Returns (1, true, h'))
  ∧ (∃ seeds h',
       GetMasternodeRank score_by_height (manager_A reg_AB) seeds "B" []
       = Returns (2, true, h')).
Proof.
  assert (NoDup (ID <$> (map_to_list reg_AB).*2)) as Hnd.
  { vm_compute. apply NoDup_cons. split; [|apply NoDup_singleton].
    intros Hin. apply list_elem_of_singleton in Hin. discriminate. }
  assert (reg_AB !! "B"%string = Some mnB) as HB by (by vm_compute).
  split.
  - apply (X4_every_rank_is_possible score_by_height (manager_A reg_AB)
             reg_AB block_9 "B" mnB 0 [] Hnd HB). vm_compute. lia.
  - apply (X4_every_rank_is_possible score_by_height (manager_A reg_AB)
             reg_AB block_9 "B" mnB 1 [] Hnd HB). vm_compute. lia.
Defined.

(** ** The lock-vote gate *)

(** X5: with a registry and a current block, the decision of
    [ProcessTxLockVotes] depends on the rank of the local identity only:
    the flag never blocks, the votes are handed to the handler when the
    rank is at most [SIGNATURES_TOTAL] and the handler's answer is
    returned; otherwise the result is [false]. *)
Theorem X5_gate_decides_by_rank_alone
    (score : Masternode -> Hash -> Z) (TxLockVote : Type)
    (is_ProcessTxLockVotes : list TxLockVote -> bool)
    (mm : MasternodeManager) (reg : gmap string Masternode) (blk : Block)
    (seeds : list nat * list nat) (votes : list TxLockVote) (h : Heap) :
  let mm' := set_CurrentBlock (set_masternodes mm (Some reg)) (Some blk) in
  ∃ rank h',
    GetMasternodeRank score mm' seeds (active_ID (active mm)) h
      = Returns (rank, true, h')
    ∧ ProcessTxLockVotes score is_ProcessTxLockVotes mm' seeds votes h
      = Returns (if rank <=? SIGNATURES_TOTAL then is_ProcessTxLockVotes votes
                 else false, h').
Proof.
  intros mm'.
  destruct (GetMasternodeRank_entries score mm reg blk seeds h)
    as (entries & h' & _ & Hrank).
  exists (GetMasternodeRank_range (active_ID (active mm)) entries 0 0), h'.
  split; [apply Hrank|].
  by rewrite (ProcessTxLockVotes_gate score is_ProcessTxLockVotes mm' seeds
                votes h h' _ true (Hrank _)).
Qed.

(** X6: while the registry holds at most [SIGNATURES_TOTAL] nodes, the
    gate of [ProcessTxLockVotes] is open to every local identity,
    registered or not, in every run: the result is the handler's
    answer. *)
Theorem X6_gate_open_up_to_ten_nodes
    (score : Masternode -> Hash -> Z) (TxLockVote : Type)
    (is_ProcessTxLockVotes : list TxLockVote -> bool)
    (mm : MasternodeManager) (reg : gmap string Masternode) (blk : Block)
    (seeds : list nat * list nat) (votes : list TxLockVote) (h : Heap) :
  Z.of_nat (size reg) ≤ SIGNATURES_TOTAL →
  ∃ h',
    ProcessTxLockVotes score is_ProcessTxLockVotes
      (set_CurrentBlock (set_masternodes mm (Some reg)) (Some blk))
      seeds votes h = Returns (is_ProcessTxLockVotes votes, h').
Proof.
  intros Hsize.
  destruct (GetMasternodeRank_entries score mm reg blk seeds h)
    as (entries & h' & Hperm & Hrank).
  exists h'.
  rewrite (ProcessTxLockVotes_gate score is_ProcessTxLockVotes _ seeds
             votes h h' _ true (Hrank _)).
  pose proof (entries_length entries reg Hperm) as Hlen.
  set (rank := GetMasternodeRank_range _ entries 0 0).
  assert (rank ≤ SIGNATURES_TOTAL) as Hle.
  { subst rank.
    destruct (GetMasternodeRank_cases entries reg (active_ID (active mm)) Hperm)
      as [[_ Hr]|[_ (i & e & Hi & _ & Hr)]]; cbn [set_CurrentBlock
        set_masternodes active] in *; rewrite Hr.
    - unfold SIGNATURES_TOTAL. lia.
    - apply lookup_lt_Some in Hi. lia. }
  simpl. by destruct (Z.leb_spec rank SIGNATURES_TOTAL); [|lia].
Qed.

(** Over the registry {A, B} a handler that refuses is the only thing
    that stops the votes of A. *)
Lemma X6_gate_open_up_to_ten_nodes_witness :
  ∃ h',
    ProcessTxLockVotes score_by_height (λ _ : list unit, false)
      (manager_A reg_AB) ([], []) [tt] [] = Returns (false, h').
Proof.
  apply (X6_gate_open_up_to_ten_nodes score_by_height unit (λ _, false)
           (manager_A reg_AB) reg_AB block_9 ([], []) [tt] []).
  by vm_compute.
Defined.

(** ** Payment winner *)

(** X7: over any registry, [GetNextMasternodeInQueueForPayment] never
    hands back a winner or an error: when it returns at all, the registry
    is empty, both results are nil and the heap is untouched. *)
Theorem X7_payment_never_returns_a_winner
    (score : Masternode -> Hash -> Z) (mm : MasternodeManager)
    (reg : gmap string Masternode) (seed : list nat) (block : Hash)
    (h h' : Heap) (winner : option Masternode) (err : option string) :
  GetNextMasternodeInQueueForPayment score (set_masternodes mm (Some reg))
    seed block h = Returns (winner, err, h') →
  reg = ∅ ∧ winner = None ∧ err = None ∧ h' = h.
Proof.
  destruct (decide (reg = ∅)) as [->|Hne].
  - rewrite GetNextMasternodeInQueueForPayment_empty. by intros [= <- <- <-].
  - by rewrite (GetNextMasternodeInQueueForPayment_nonempty score mm reg seed
                  block h Hne).
Qed.

(** The run on the empty registry is such a return. *)
Lemma X7_payment_never_returns_a_winner_witness :
  GetNextMasternodeInQueueForPayment score_by_height (manager_A ∅) [] [9] []
    = Returns (None, None, [])
  ∧ ((∅ : gmap string Masternode) = ∅
     ∧ (None : option Masternode) = None
     ∧ (None : option string) = None ∧ ([] : Heap) = []).
Proof.
  split; [reflexivity|].
  exact (X7_payment_never_returns_a_winner score_by_height (manager_A ∅) ∅
           [] [9] [] [] None None eq_refl).
Defined.

(** ** The membership loop *)

Section LoopFacts.

Variables ACTIVE_MASTERNODE_NOT_CAPABLE ACTIVE_MASTERNODE_STARTED : Z.
Variable contract_GetInfo : string -> option Masternode.

Local Abbreviation update :=
  (updateActiveMasternode ACTIVE_MASTERNODE_NOT_CAPABLE
     ACTIVE_MASTERNODE_STARTED).
Local Abbreviation select :=
  (masternodeLoop_select ACTIVE_MASTERNODE_NOT_CAPABLE
     ACTIVE_MASTERNODE_STARTED contract_GetInfo).
Local Abbreviation loop_for :=
  (masternodeLoop_for ACTIVE_MASTERNODE_NOT_CAPABLE
     ACTIVE_MASTERNODE_STARTED contract_GetInfo).

(** What one round changes: the registry as [membership_after] says, the
    peers by the endpoint of a joined node other than the local one, the
    flag of a subscription whose stream reported an error; nothing
    else. *)
Lemma masternodeLoop_select_effect (st st' : LoopState) (ev : Event)
    (reg : gmap string Masternode) :
  masternodes (loop_mn st) = Some reg →
  select st ev = Returns st' →
  masternodes (loop_mn st')
    = Some (membership_after contract_GetInfo reg [ev])
  ∧ server_peers (srvr (loop_mn st'))
    = rev (joined_endpoints contract_GetInfo
             (Self_ID32 (srvr (loop_mn st))) [ev])
      ++ server_peers (srvr (loop_mn st))
  ∧ Self_ID32 (srvr (loop_mn st')) = Self_ID32 (srvr (loop_mn st))
  ∧ active_ID (active (loop_mn st')) = active_ID (active (loop_mn st))
  ∧ active_Addr (active (loop_mn st')) = active_Addr (active (loop_mn st))
  ∧ CurrentBlock (loop_mn st') = CurrentBlock (loop_mn st)
  ∧ joinSub st' = joinSub st && negb (is_JoinSubErr ev)
  ∧ quitSub st' = quitSub st && negb (is_QuitSubErr ev).
Proof.
  intros Hreg Hstep. destruct st as [mn js qs]. simpl in Hreg.
  destruct ev as [id|id|[err|]|[err|]]; cbn -[updateActiveMasternode] in Hstep;
    try discriminate.
  - unfold MasternodeSet.NodeJoin in Hstep. rewrite Hreg in Hstep.
    cbn [joined_endpoints omap list_omap membership_after foldl
         is_JoinSubErr is_QuitSubErr negb].
    destruct (contract_GetInfo id) as [node|];
      cbn -[updateActiveMasternode] in Hstep.
    + destruct (String.eqb id (Self_ID32 (srvr mn))) eqn:Hself.
      * unfold and_then in Hstep.
        destruct (update _) as [mn'|] eqn:Hup; [|discriminate].
        injection Hstep as <-.
        apply updateActiveMasternode_keeps in Hup
          as (Hm & Hid & Haddr & Hblk & Hsrvr). cbn in *.
        rewrite Hm, Hid, Haddr, Hblk, Hsrvr.
        by rewrite ?Hself, ?andb_true_r.
      * injection Hstep as <-. cbn. by rewrite ?Hself, ?andb_true_r.
    + injection Hstep as <-. cbn.
      by destruct (String.eqb id (Self_ID32 (srvr mn)));
        rewrite ?andb_true_r.
  - unfold MasternodeSet.NodeQuit in Hstep. rewrite Hreg in Hstep.
    cbn -[updateActiveMasternode] in Hstep.
    cbn [joined_endpoints omap list_omap membership_after foldl
         is_JoinSubErr is_QuitSubErr negb].
    destruct (String.eqb id (Self_ID32 (srvr mn))) eqn:Hself.
    + unfold and_then in Hstep.
      destruct (update _) as [mn'|] eqn:Hup; [|discriminate].
      injection Hstep as <-.
      apply updateActiveMasternode_keeps in Hup
        as (Hm & Hid & Haddr & Hblk & Hsrvr). cbn in *.
      rewrite Hm, Hid, Haddr, Hblk, Hsrvr.
        by rewrite ?Hself, ?andb_true_r.
    + injection Hstep as <-. cbn. by rewrite ?andb_true_r.
  - injection Hstep as <-. cbn. by rewrite andb_false_r, andb_true_r.
  - injection Hstep as <-. cbn. by rewrite andb_false_r, andb_true_r.
Qed.

(** The effect of a run of the loop is the effect of its rounds, in
    order. *)
Lemma masternodeLoop_for_effect (events : list Event) :
  ∀ (st st' : LoopState) (reg : gmap string Masternode),
    masternodes (loop_mn st) = Some reg →
    loop_for events st = Returns (InSelect st') →
    masternodes (loop_mn st')
      = Some (membership_after contract_GetInfo reg events)
    ∧ server_peers (srvr (loop_mn st'))
      = rev (joined_endpoints contract_GetInfo
               (Self_ID32 (srvr (loop_mn st))) events)
        ++ server_peers (srvr (loop_mn st))
    ∧ Self_ID32 (srvr (loop_mn st')) = Self_ID32 (srvr (loop_mn st))
    ∧ active_ID (active (loop_mn st')) = active_ID (active (loop_mn st))
    ∧ active_Addr (active (loop_mn st')) = active_Addr (active (loop_mn st))
    ∧ CurrentBlock (loop_mn st') = CurrentBlock (loop_mn st)
    ∧ joinSub st'
      = joinSub st && forallb (λ ev, negb (is_JoinSubErr ev)) events
    ∧ quitSub st'
      = quitSub st && forallb (λ ev, negb (is_QuitSubErr ev)) events.
Proof.
  induction events as [|ev rest IH]; intros st st' reg Hreg Hrun.
  - injection Hrun as <-. cbn. by rewrite !andb_true_r.
  - cbn [masternodeLoop_for] in Hrun. unfold and_then in Hrun at 1.
    destruct (select st ev) as [st1|] eqn:Hstep; [|discriminate].
    destruct (masternodeLoop_select_effect st st1 ev reg Hreg Hstep)
      as (Hm1 & Hp1 & Hs1 & Hi1 & Ha1 & Hb1 & Hj1 & Hq1).
    destruct (IH st1 st' _ Hm1 Hrun)
      as (Hm & Hp & Hs & Hi & Ha & Hb & Hj & Hq).
    split_and!.
    + exact Hm.
    + rewrite Hp, Hp1, Hs1. unfold joined_endpoints.
      change (ev :: rest) with ([ev] ++ rest).
      by rewrite omap_app, rev_app_distr, app_assoc.
    + congruence.
    + congruence.
    + congruence.
    + congruence.
    + rewrite Hj, Hj1. cbn [forallb]. by rewrite andb_assoc.
    + rewrite Hq, Hq1. cbn [forallb]. by rewrite andb_assoc.
Qed.

(** The same for the whole function, once both subscriptions are in
    place. *)
Lemma masternodeLoop_effect (mn : MasternodeManager)
    (reg : gmap string Masternode) (events : list Event) (st : LoopState) :
  masternodeLoop ACTIVE_MASTERNODE_NOT_CAPABLE ACTIVE_MASTERNODE_STARTED
    contract_GetInfo (set_masternodes mn (Some reg)) None None events
    = Returns (InSelect st) →
  masternodes (loop_mn st)
    = Some (membership_after contract_GetInfo reg events)
  ∧ server_peers (srvr (loop_mn st))
    = rev (joined_endpoints contract_GetInfo (Self_ID32 (srvr mn)) events)
      ++ server_peers (srvr mn)
  ∧ Self_ID32 (srvr (loop_mn st)) = Self_ID32 (srvr mn)
  ∧ active_ID (active (loop_mn st)) = active_ID (active mn)
  ∧ active_Addr (active (loop_mn st)) = active_Addr (active mn)
  ∧ CurrentBlock (loop_mn st) = CurrentBlock mn
  ∧ joinSub st = forallb (λ ev, negb (is_JoinSubErr ev)) events
  ∧ quitSub st = forallb (λ ev, negb (is_QuitSubErr ev)) events.
Proof.
  unfold masternodeLoop, and_then. intros Hrun.
  destruct (update _) as [mn0|] eqn:Hup; [|discriminate].
  apply updateActiveMasternode_keeps in Hup
    as (Hm0 & Hi0 & Ha0 & Hb0 & Hs0). cbn in Hm0, Hi0, Ha0, Hb0, Hs0.
  destruct (masternodeLoop_for_effect events
              {| loop_mn := mn0; joinSub := true; quitSub := true |}
              st reg Hm0 Hrun)
    as (Hm & Hp & Hs & Hi & Ha & Hb & Hj & Hq). cbn in *.
  rewrite Hs0 in *. split_and!; try done; congruence.
Qed.

(** Evaluating twice changes nothing more. *)
Lemma updateActiveMasternode_twice (mn mn' : MasternodeManager) :
  update mn = Returns mn' → update mn' = Returns mn'.
Proof.
  unfold updateActiveMasternode, and_then. destruct mn as [ns act blk sv].
  cbn. destruct ns as [reg|]; cbn; [|discriminate].
  intros [= <-]. cbn. reflexivity.
Qed.

(** A manager whose state is up to date stays so when the registry
    changes away from the local identity and the rest of the active
    record is kept. *)
Lemma updateActiveMasternode_transfer (mn1 mn2 : MasternodeManager)
    (reg1 reg2 : gmap string Masternode) :
  update mn1 = Returns mn1 →
  masternodes mn1 = Some reg1 → masternodes mn2 = Some reg2 →
  active mn2 = active mn1 →
  reg2 !! active_ID (active mn1) = reg1 !! active_ID (active mn1) →
  update mn2 = Returns mn2.
Proof.
  unfold updateActiveMasternode, and_then.
  destruct mn1 as [ns1 act1 blk1 sv1], mn2 as [ns2 act2 blk2 sv2]. cbn.
  intros Hup -> -> -> Hlook. cbn in *. rewrite Hlook.
  destruct act1 as [id addr state]. cbn in *.
  injection Hup as Hstate. by rewrite Hstate.
Qed.

(** One round keeps the state up to date, provided the local node is
    known to the loop under the identity of its active record. *)
Lemma masternodeLoop_select_in_sync (st st' : LoopState) (ev : Event) :
  Self_ID32 (srvr (loop_mn st)) = active_ID (active (loop_mn st)) →
  update (loop_mn st) = Returns (loop_mn st) →
  select st ev = Returns st' →
  update (loop_mn st') = Returns (loop_mn st').
Proof.
  intros Hself Hsync Hstep. destruct st as [mn js qs]. cbn in Hself, Hsync.
  assert (∃ reg, masternodes mn = Some reg) as [reg Hreg].
  { unfold updateActiveMasternode, and_then in Hsync.
    destruct (masternodes mn) as [reg|]; [by exists reg|discriminate]. }
  destruct ev as [id|id|[err|]|[err|]];
    cbn -[updateActiveMasternode] in Hstep; try discriminate.
  - unfold MasternodeSet.NodeJoin in Hstep. rewrite Hreg in Hstep.
    destruct (contract_GetInfo id) as [node|];
      cbn -[updateActiveMasternode] in Hstep.
    + destruct (String.eqb_spec id (Self_ID32 (srvr mn))) as [Heq|Hne].
      * unfold and_then in Hstep.
        match type of Hstep with context [update ?m] =>
          destruct (update m) as [mn'|] eqn:Hup; [|discriminate] end.
        injection Hstep as <-. cbn [loop_mn].
        by apply (updateActiveMasternode_twice _ _ Hup).
      * injection Hstep as <-. cbn [loop_mn].
        apply (updateActiveMasternode_transfer mn _ reg (<[id := node]> reg)
                 Hsync Hreg); [done|done|].
        rewrite lookup_insert_ne; [done|]. by rewrite <- Hself.
    + injection Hstep as <-. cbn [loop_mn].
      by apply (updateActiveMasternode_transfer mn _ reg reg Hsync Hreg).
  - unfold MasternodeSet.NodeQuit in Hstep. rewrite Hreg in Hstep.
    cbn -[updateActiveMasternode] in Hstep.
    destruct (String.eqb_spec id (Self_ID32 (srvr mn))) as [Heq|Hne].
    + unfold and_then in Hstep.
      match type of Hstep with context [update ?m] =>
        destruct (update m) as [mn'|] eqn:Hup; [|discriminate] end.
      injection Hstep as <-. cbn [loop_mn].
      by apply (updateActiveMasternode_twice _ _ Hup).
    + injection Hstep as <-. cbn [loop_mn].
      apply (updateActiveMasternode_transfer mn _ reg (delete id reg)
               Hsync Hreg); [done|done|].
      rewrite lookup_delete_ne; [done|]. by rewrite <- Hself.
  - by injection Hstep as <-.
  - by injection Hstep as <-.
Qed.

Lemma masternodeLoop_for_in_sync (events : list Event) :
  ∀ (st st' : LoopState),
    Self_ID32 (srvr (loop_mn st)) = active_ID (active (loop_mn st)) →
    update (loop_mn st) = Returns (loop_mn st) →
    loop_for events st = Returns (InSelect st') →
    update (loop_mn st') = Returns (loop_mn st').
Proof.
  induction events as [|ev rest IH]; intros st st' Hself Hsync Hrun.
  - by injection Hrun as <-.
  - cbn [masternodeLoop_for] in Hrun. unfold and_then in Hrun at 1.
    destruct (select st ev) as [st1|] eqn:Hstep; [|discriminate].
    apply (IH st1 st'); [| |done].
    + assert (∃ reg, masternodes (loop_mn st) = Some reg) as [reg Hreg].
      { unfold updateActiveMasternode, and_then in Hsync.
        destruct (masternodes (loop_mn st)) as [reg|];
          [by exists reg|discriminate]. }
      destruct (masternodeLoop_select_effect st st1 ev reg Hreg Hstep)
        as (_ & _ & Hs1 & Hi1 & _). congruence.
    + by apply (masternodeLoop_select_in_sync st st1 ev).
Qed.

End LoopFacts.

(** X8: once both subscriptions are in place, the registry after any
    events the loop has handled is the starting registry with the joins
    and quits applied in the order received: a join the contract knows
    inserts or replaces, a quit deletes, a failed join and a stream error
    change nothing, and no event is skipped, whether it concerns the local
    node or not and whatever errors came before it. *)
Theorem X8_loop_applies_every_membership_event
    (ACTIVE_MASTERNODE_NOT_CAPABLE ACTIVE_MASTERNODE_STARTED : Z)
    (contract_GetInfo : string -> option Masternode)
    (mn : MasternodeManager) (reg : gmap string Masternode)
    (events : list Event) (st : LoopState) :
  masternodeLoop ACTIVE_MASTERNODE_NOT_CAPABLE ACTIVE_MASTERNODE_STARTED
    contract_GetInfo (set_masternodes mn (Some reg)) None None events
    = Returns (InSelect st) →
  masternodes (loop_mn st)
    = Some (membership_after contract_GetInfo reg events).
Proof.
  intros Hrun.
  by destruct (masternodeLoop_effect _ _ _ mn reg events st Hrun) as (? & _).
Qed.

(** Over {A, B}: C joins, the join stream fails, B quits, the unknown D
    joins. *)
Lemma X8_loop_applies_every_membership_event_witness :
  ∃ st,
    masternodeLoop 3 4 contract_C (manager_A reg_AB) None None
      [JoinCh "C"; JoinSubErr (Some "x"%string); QuitCh "B"; JoinCh "D"]
      = Returns (InSelect st)
    ∧ masternodes (loop_mn st)
      = Some (membership_after contract_C reg_AB
                [JoinCh "C"; JoinSubErr (Some "x"%string); QuitCh "B";
                 JoinCh "D"]).
Proof.
  eexists. split; [vm_compute; reflexivity|].
  apply (X8_loop_applies_every_membership_event 3 4 contract_C
           (manager_A reg_AB) reg_AB).
  vm_compute; reflexivity.
Defined.

(** X9: the loop asks the server to connect to the endpoint of every
    node whose join succeeds and whose id is not the local one, once per
    such event and in the order received; it never asks for the local
    node, never on a quit or an error, and never drops a peer. *)
Theorem X9_loop_connects_to_joined_nodes
    (ACTIVE_MASTERNODE_NOT_CAPABLE ACTIVE_MASTERNODE_STARTED : Z)
    (contract_GetInfo : string -> option Masternode)
    (mn : MasternodeManager) (reg : gmap string Masternode)
    (events : list Event) (st : LoopState) :
  masternodeLoop ACTIVE_MASTERNODE_NOT_CAPABLE ACTIVE_MASTERNODE_STARTED
    contract_GetInfo (set_masternodes mn (Some reg)) None None events
    = Returns (InSelect st) →
  server_peers (srvr (loop_mn st))
    = rev (joined_endpoints contract_GetInfo (Self_ID32 (srvr mn)) events)
      ++ server_peers (srvr mn)
  ∧ Self_ID32 (srvr (loop_mn st)) = Self_ID32 (srvr mn).
Proof.
  intros Hrun.
  by destruct (masternodeLoop_effect _ _ _ mn reg events st Hrun)
    as (_ & ? & ? & _).
Qed.

(** Over {A, B}, on the node A: C joins, then A joins; only C is
    connected to. *)
Lemma X9_loop_connects_to_joined_nodes_witness :
  ∃ st,
    masternodeLoop 3 4 (λ id, if String.eqb id "C" then Some mnC else Some mnA)
      (manager_A reg_AB) None None [JoinCh "C"; JoinCh "A"]
      = Returns (InSelect st)
    ∧ server_peers (srvr (loop_mn st)) = [Node mnC].
Proof.
  eexists. split; [vm_compute; reflexivity|].
  refine (proj1 (X9_loop_connects_to_joined_nodes 3 4
                   (λ id, if String.eqb id "C" then Some mnC else Some mnA)
                   (manager_A reg_AB) reg_AB [JoinCh "C"; JoinCh "A"] _ _)).
  vm_compute; reflexivity.
Defined.

(** X10: when the local node is known to the loop under the identity of
    its active record, the stored state is up to date after every event:
    evaluating it again on the manager the loop holds changes nothing,
    whatever joins, quits and errors were received. *)
Theorem X10_loop_keeps_active_state_up_to_date
    (ACTIVE_MASTERNODE_NOT_CAPABLE ACTIVE_MASTERNODE_STARTED : Z)
    (contract_GetInfo : string -> option Masternode)
    (mn : MasternodeManager) (events : list Event) (st : LoopState) :
  Self_ID32 (srvr mn) = active_ID (active mn) →
  masternodeLoop ACTIVE_MASTERNODE_NOT_CAPABLE ACTIVE_MASTERNODE_STARTED
    contract_GetInfo mn None None events = Returns (InSelect st) →
  updateActiveMasternode ACTIVE_MASTERNODE_NOT_CAPABLE
    ACTIVE_MASTERNODE_STARTED (loop_mn st) = Returns (loop_mn st).
Proof.
  intros Hself Hrun. unfold masternodeLoop, and_then in Hrun.
  destruct (updateActiveMasternode _ _ mn) as [mn0|] eqn:Hup; [|discriminate].
  apply (masternodeLoop_for_in_sync _ _ contract_GetInfo events
           {| loop_mn := mn0; joinSub := true; quitSub := true |} st);
    [|by apply (updateActiveMasternode_twice _ _ _ _ Hup)|done].
  apply updateActiveMasternode_keeps in Hup as (_ & Hid & _ & _ & Hsrvr).
  cbn. congruence.
Qed.

(** Over {A, B}, on the node A: B quits, then A quits; the state of A
    ends as not capable (3). *)
Lemma X10_loop_keeps_active_state_up_to_date_witness :
  ∃ st,
    masternodeLoop 3 4 contract_C (manager_A reg_AB) None None
      [QuitCh "B"; QuitCh "A"] = Returns (InSelect st)
    ∧ active_state (active (loop_mn st)) = 3
    ∧ updateActiveMasternode 3 4 (loop_mn st) = Returns (loop_mn st).
Proof.
  eexists. split; [vm_compute; reflexivity|]. split; [reflexivity|].
  apply (X10_loop_keeps_active_state_up_to_date 3 4 contract_C
           (manager_A reg_AB) [QuitCh "B"; QuitCh "A"]);
    [reflexivity|vm_compute; reflexivity].
Defined.

(** X11: the loop never subscribes again: after any events, the join
    subscription is still in place exactly when no error of the join
    stream was among them, and likewise for the quit subscription; an
    error of one stream leaves the other subscription alone. *)
Theorem X11_loop_subscriptions_only_drop
    (ACTIVE_MASTERNODE_NOT_CAPABLE ACTIVE_MASTERNODE_STARTED : Z)
    (contract_GetInfo : string -> option Masternode)
    (mn : MasternodeManager) (reg : gmap string Masternode)
    (events : list Event) (st : LoopState) :
  masternodeLoop ACTIVE_MASTERNODE_NOT_CAPABLE ACTIVE_MASTERNODE_STARTED
    contract_GetInfo (set_masternodes mn (Some reg)) None None events
    = Returns (InSelect st) →
  joinSub st = forallb (λ ev, negb (is_JoinSubErr ev)) events
  ∧ quitSub st = forallb (λ ev, negb (is_QuitSubErr ev)) events.
Proof.
  intros Hrun.
  by destruct (masternodeLoop_effect _ _ _ mn reg events st Hrun)
    as (_ & _ & _ & _ & _ & _ & ? & ?).
Qed.

(** An error of the quit stream between two joins. *)
Lemma X11_loop_subscriptions_only_drop_witness :
  ∃ st,
    masternodeLoop 3 4 contract_C (manager_A reg_AB) None None
      [JoinCh "C"; QuitSubErr (Some "x"%string); JoinCh "D"]
      = Returns (InSelect st)
    ∧ joinSub st = true ∧ quitSub st = false.
Proof.
  eexists. split; [vm_compute; reflexivity|].
  apply (X11_loop_subscriptions_only_drop 3 4 contract_C
           (manager_A reg_AB) reg_AB
           [JoinCh "C"; QuitSubErr (Some "x"%string); JoinCh "D"]).
  vm_compute; reflexivity.
Defined.

(** ** The registration data *)

Lemma copy_zero_window (ip : list Z) :
  copy (replicate 16 0) ip = take 16 (ip ++ replicate 16 0)
  ∧ length (copy (replicate 16 0) ip) = 16%nat.
Proof.
  unfold copy. rewrite length_replicate. split.
  - rewrite take_app, drop_replicate, take_replicate. do 2 f_equal. lia.
  - rewrite length_app, length_take, length_drop, length_replicate. lia.
Qed.

(** The bytes of [misc]: the marker 1, sixteen bytes for the address,
    the port with its high byte first, thirteen zero bytes. *)
Lemma masternodeLoop_misc_layout (addr : TCPAddr) :
  masternodeLoop_misc addr
  = Some ([1] ++ take 16 (Addr_IP addr ++ replicate 16 0)
          ++ [byte (uint16 (Addr_Port addr) ≫ 8);
              byte (uint16 (Addr_Port addr))]
          ++ replicate 13 0).
Proof.
  unfold masternodeLoop_misc.
  change (slice 1 17 (<[0%nat:=1]> (replicate 32 0))) with (replicate 16 0).
  destruct (copy_zero_window (Addr_IP addr)) as [<- Hlen].
  generalize dependent (copy (replicate 16 0) (Addr_IP addr)). intros w Hlen.
  do 16 (destruct w as [|? w]; [discriminate|]).
  destruct w; [|discriminate]. reflexivity.
Qed.

Lemma uint16_bytes (x : Z) :
  0 ≤ byte (uint16 x ≫ 8) < 256 ∧ 0 ≤ byte (uint16 x) < 256
  ∧ byte (uint16 x ≫ 8) * 256 + byte (uint16 x) = x mod 65536.
Proof.
  unfold byte, uint16. rewrite Z.shiftr_div_pow2 by lia.
  change (2 ^ 8) with 256.
  pose proof (Z.mod_pos_bound x 65536 ltac:(lia)) as Hx.
  set (v := x mod 65536) in *.
  assert (0 ≤ v / 256 < 256) as Hhi.
  { split; [apply Z.div_pos; lia|apply Z.div_lt_upper_bound; lia]. }
  rewrite (Z.mod_small (v / 256) 256) by lia.
  pose proof (Z.mod_pos_bound v 256 ltac:(lia)).
  pose proof (Z.div_mod v 256 ltac:(lia)). lia.
Qed.

Lemma IP_Equal_empty (ip : list Z) : IP_Equal ip [] = true ↔ ip = [].
Proof.
  destruct ip as [|b ip]; [done|]. unfold IP_Equal. cbn [length].
  split; [|done].
  destruct (_ =? _)%nat eqn:E1; [by apply Nat.eqb_eq in E1|].
  rewrite !andb_false_r. done.
Qed.

Lemma masternodeLoop_data_layout (Bytes2Hex : list Z -> string)
    (selfID : list Z) (addr : TCPAddr) :
  ∃ misc,
    masternodeLoop_misc addr = Some misc
    ∧ length misc = 32%nat
    ∧ misc !! 0%nat = Some 1
    ∧ drop 19 misc = replicate 13 0
    ∧ masternodeLoop_data Bytes2Hex selfID addr
      = Some ("0x4da274fd" +:+ Bytes2Hex (selfID ++ misc)).
Proof.
  eexists. split; [apply masternodeLoop_misc_layout|].
  unfold masternodeLoop_data. rewrite masternodeLoop_misc_layout.
  destruct (copy_zero_window (Addr_IP addr)) as [<- Hlen].
  generalize dependent (copy (replicate 16 0) (Addr_IP addr)). intros w Hlen.
  do 16 (destruct w as [|? w]; [discriminate|]).
  destruct w; [|discriminate]. by split_and!.
Qed.

(** X12: for every configured address (an IP of any length, any port)
    and node id, [masternodeLoop] builds its registration data without a
    fault: [misc] has exactly 32 bytes, starts with the marker 1 and ends
    with 13 zero bytes, and the string is the selector "0x4da274fd"
    followed by the hex form of the node id and then [misc]. *)
Theorem X12_registration_data_shape
    (Bytes2Hex : list Z -> string) (selfID : list Z) (addr : TCPAddr) :
  ∃ misc,
    masternodeLoop_misc addr = Some misc
    ∧ length misc = 32%nat
    ∧ misc !! 0%nat = Some 1
    ∧ drop 19 misc = replicate 13 0
    ∧ masternodeLoop_data Bytes2Hex selfID addr
      = Some ("0x4da274fd" +:+ Bytes2Hex (selfID ++ misc)).
Proof. apply masternodeLoop_data_layout. Qed.

(** X13: bytes 17 and 18 of [misc] hold the configured port in big-endian
    order, reduced to 16 bits: read back, they give the port modulo
    65536, which is the port itself when it is a valid TCP port. *)
Theorem X13_registration_data_port
    (addr : TCPAddr) :
  ∃ misc hi lo,
    masternodeLoop_misc addr = Some misc
    ∧ misc !! 17%nat = Some hi ∧ misc !! 18%nat = Some lo
    ∧ 0 ≤ hi < 256 ∧ 0 ≤ lo < 256
    ∧ hi * 256 + lo = Addr_Port addr mod 65536
    ∧ (0 ≤ Addr_Port addr < 65536 → hi * 256 + lo = Addr_Port addr).
Proof.
  exists ([1] ++ take 16 (Addr_IP addr ++ replicate 16 0)
          ++ [byte (uint16 (Addr_Port addr) ≫ 8);
              byte (uint16 (Addr_Port addr))]
          ++ replicate 13 0),
         (byte (uint16 (Addr_Port addr) ≫ 8)), (byte (uint16 (Addr_Port addr))).
  split; [apply masternodeLoop_misc_layout|].
  destruct (uint16_bytes (Addr_Port addr)) as (Hhi & Hlo & Hsum).
  assert (∀ w : list Z, length w = 16%nat →
            ∀ x y : Z, ([1] ++ w ++ [x; y] ++ replicate 13 0) !! 17%nat = Some x
                       ∧ ([1] ++ w ++ [x; y] ++ replicate 13 0) !! 18%nat
                         = Some y) as Hw.
  { intros w Hlen x y. do 16 (destruct w as [|? w]; [discriminate|]).
    by destruct w. }
  destruct (copy_zero_window (Addr_IP addr)) as [Heq Hlen]. rewrite Heq in Hlen.
  destruct (Hw _ Hlen (byte (uint16 (Addr_Port addr) ≫ 8))
              (byte (uint16 (Addr_Port addr)))) as [H17 H18].
  split_and!; try done; try lia.
  intros Hport. rewrite Hsum. by apply Z.mod_small.
Qed.

(** X14: bytes 1 to 16 of [misc] are the first 16 bytes of the configured
    IP followed by zeros: a 16-byte address is stored as it is, a longer
    one is cut, and a 4-byte address is stored in the first four bytes
    with 12 zero bytes after it. *)
Theorem X14_registration_data_address
    (addr : TCPAddr) :
  ∃ misc,
    masternodeLoop_misc addr = Some misc
    ∧ slice 1 17 misc = take 16 (Addr_IP addr ++ replicate 16 0)
    ∧ (length (Addr_IP addr) = 16%nat → slice 1 17 misc = Addr_IP addr)
    ∧ ((16 ≤ length (Addr_IP addr))%nat →
       slice 1 17 misc = take 16 (Addr_IP addr))
    ∧ (length (Addr_IP addr) = 4%nat →
       slice 1 17 misc = Addr_IP addr ++ replicate 12 0).
Proof.
  eexists. split; [apply masternodeLoop_misc_layout|].
  assert (slice 1 17
            ([1] ++ take 16 (Addr_IP addr ++ replicate 16 0)
             ++ [byte (uint16 (Addr_Port addr) ≫ 8);
                 byte (uint16 (Addr_Port addr))] ++ replicate 13 0)
          = take 16 (Addr_IP addr ++ replicate 16 0)) as Hslice.
  { destruct (copy_zero_window (Addr_IP addr)) as [<- Hlen].
    generalize dependent (copy (replicate 16 0) (Addr_IP addr)).
    intros w Hlen. do 16 (destruct w as [|? w]; [discriminate|]).
    by destruct w. }
  rewrite Hslice. split_and!; [done|..].
  - intros Hlen. rewrite take_app_ge by lia.
    replace (16 - length (Addr_IP addr))%nat with O by lia.
    by rewrite take_0, app_nil_r.
  - intros Hlen. by rewrite take_app_le by lia.
  - intros Hlen. rewrite take_app_ge by lia. by rewrite Hlen.
Qed.

(** X15: after its first evaluation [masternodeLoop] prints one line or
    none: the check line when the state is STARTED; otherwise nothing
    when no masternode IP is configured, and otherwise the registration
    data. *)
Theorem X15_announce_lines
    (Bytes2Hex : list Z -> string) (ACTIVE_MASTERNODE_STARTED state : Z)
    (selfID : list Z) (addr : TCPAddr) :
  ∃ lines,
    masternodeLoop_announce Bytes2Hex ACTIVE_MASTERNODE_STARTED state selfID
      addr = Some lines
    ∧ (state = ACTIVE_MASTERNODE_STARTED →
       lines = ["masternodeCheck true"%string])
    ∧ (state ≠ ACTIVE_MASTERNODE_STARTED → Addr_IP addr = [] → lines = [])
    ∧ (state ≠ ACTIVE_MASTERNODE_STARTED → Addr_IP addr ≠ [] →
       ∃ d, masternodeLoop_data Bytes2Hex selfID addr = Some d
            ∧ lines = ["Masternode transaction data: " +:+ d]).
Proof.
  unfold masternodeLoop_announce.
  destruct (masternodeLoop_data_layout Bytes2Hex selfID addr)
    as (misc & _ & _ & _ & _ & Hdata).
  destruct (Z.eqb_spec state ACTIVE_MASTERNODE_STARTED) as [Hst|Hst].
  - eexists. split; [done|]. by split_and!.
  - destruct (IP_Equal (Addr_IP addr) []) eqn:Hip; cbn [negb].
    + apply IP_Equal_empty in Hip. eexists. split; [done|]. by split_and!.
    + rewrite Hdata. eexists. split; [done|]. split_and!; try done.
      * intros _ Hnil. rewrite Hnil in Hip. by rewrite IP_Equal_refl in Hip.
      * intros _ _. by eexists.
Qed.

(** The data for 10.0.0.1:30303 (30303 is 0x765F). *)
Example masternodeLoop_misc_sample :
  masternodeLoop_misc {| Addr_IP := [10; 0; 0; 1]; Addr_Port := 30303 |}
  = Some ([1; 10; 0; 0; 1] ++ replicate 12 0 ++ [118; 95] ++ replicate 13 0).
Proof. reflexivity. Qed.

(** ** Address forms in the evaluation of the active state *)

Lemma IP_Equal_v4_in_v6 (ip4 : list Z) :
  length ip4 = 4%nat → IP_Equal (v4InV6Prefix ++ ip4) ip4 = true.
Proof.
  intros Hlen. unfold IP_Equal.
  rewrite length_app, Hlen. cbn [length v4InV6Prefix Nat.add Nat.eqb andb].
  rewrite take_app_length', drop_app_length' by done.
  apply andb_true_iff. by split; apply bytesEqual_spec.
Qed.

(** X16: the address comparison of [updateActiveMasternode] is by address,
    not by bytes: a node registered with the local port and with the
    16-byte IPv4-in-IPv6 form of the 4-byte local address is evaluated as
    STARTED, and STARTED is the state stored in the manager returned. *)
Theorem X16_started_under_v4_in_v6_form
    (ACTIVE_MASTERNODE_NOT_CAPABLE ACTIVE_MASTERNODE_STARTED : Z)
    (mn : MasternodeManager) (reg : gmap string Masternode) (n : Masternode) :
  reg !! active_ID (active mn) = Some n →
  TCP (Node n) = Addr_Port (active_Addr (active mn)) →
  length (Addr_IP (active_Addr (active mn))) = 4%nat →
  IP (Node n) = v4InV6Prefix ++ Addr_IP (active_Addr (active mn)) →
  ∃ mn',
    updateActiveMasternode ACTIVE_MASTERNODE_NOT_CAPABLE
      ACTIVE_MASTERNODE_STARTED (set_masternodes mn (Some reg)) = Returns mn'
    ∧ mn' = set_active (set_masternodes mn (Some reg))
              (SetState (active mn) ACTIVE_MASTERNODE_STARTED)
    ∧ active_state (active mn') = ACTIVE_MASTERNODE_STARTED.
Proof.
  intros Hn Hport Hlen Hip. unfold updateActiveMasternode, and_then.
  cbn [set_masternodes masternodes active MasternodeSet.Node]. rewrite Hn.
  rewrite Hport, Z.eqb_refl, Hip, (IP_Equal_v4_in_v6 _ Hlen).
  eexists. split; [reflexivity|]. by split.
Qed.

(** The node A registered as ::ffff:10.0.0.1, port 30303. *)
Lemma X16_started_under_v4_in_v6_form_witness :
  ∃ mn',
    updateActiveMasternode 3 4
      (set_masternodes (manager_A ∅)
         (Some {[ "A"%string :=
                    {| ID := "A";
                       Node := {| IP := v4InV6Prefix ++ [10; 0; 0; 1];
                                  TCP := 30303 |};
                       Height := 5; ProtocolVersion := 1 |} ]}))
    = Returns mn'
    ∧ mn' = set_active
              (set_masternodes (manager_A ∅)
                 (Some {[ "A"%string :=
                            {| ID := "A";
                               Node := {| IP := v4InV6Prefix ++ [10; 0; 0; 1];
                                          TCP := 30303 |};
                               Height := 5; ProtocolVersion := 1 |} ]}))
              (SetState (active (manager_A ∅)) 4)
    ∧ active_state (active mn') = 4.
Proof.
  apply (X16_started_under_v4_in_v6_form 3 4 (manager_A ∅) _
           {| ID := "A";
              Node := {| IP := v4InV6Prefix ++ [10; 0; 0; 1];
                         TCP := 30303 |};
              Height := 5; ProtocolVersion := 1 |}); reflexivity.
Defined.
